(** * pycwlviewer: a shallow embedding of [pycwlviewer/cwlviewer.py]

    The development follows the Python module top-down:

    - [urllib]: the part of [urllib.parse] that [urlparse(...).fragment]
      goes through (CPython 3.8, the newest interpreter [setup.py] lists);
    - [pgv]: the part of [pygraphviz.AGraph] the viewer uses
      ([add_node], [add_edge], [add_subgraph], the attribute stores);
    - the result rows of the four bundled SPARQL queries and the fact graph
      seen through them;
    - class [CWLViewer], method by method, in a state-and-exception monad
      whose state is the object [self];
    - the properties of the specification, proved against those
      definitions. *)

From Stdlib Require Import Ascii String.
From stdpp Require Import base strings list gmap.

Local Open Scope string_scope.
Local Open Scope list_scope.

(** ** Python exceptions the modelled code can raise *)

Inductive exn : Type :=
  | IndexError      (* [list(...)[0]] on an empty list *)
  | ValueError      (* [urlsplit]: "Invalid IPv6 URL" *)
  | AttributeError  (* reading an attribute of [self] not assigned yet *)
  | BadSyntax.      (* [rdflib.Graph.parse] on text that is not N3 *)

(** ** [urllib.parse] *)

Module urllib.

(** [c in s] for a one-character [c]. *)
Fixpoint contains (c : ascii) (s : string) : bool :=
  match s with
  | EmptyString => false
  | String d s' => if Ascii.eqb c d then true else contains c s'
  end.

(** [s.split(c, 1)] when [c in s]: the text before the first [c] and the
    text after it; [None] when [c] does not occur. *)
Fixpoint split_once (c : ascii) (s : string) : option (string * string) :=
  match s with
  | EmptyString => None
  | String d s' =>
      if Ascii.eqb c d then Some (EmptyString, s')
      else match split_once c s' with
           | Some (l, r) => Some (String d l, r)
           | None => None
           end
  end.

Fixpoint forallb (p : ascii -> bool) (s : string) : bool :=
  match s with
  | EmptyString => true
  | String d s' => p d && forallb p s'
  end.

Definition scheme_chars : string :=
  "abcdefghijklmnopqrstuvwxyzABCDEFGHIJKLMNOPQRSTUVWXYZ0123456789+-.".

Definition digits : string := "0123456789".

Definition lower_char (c : ascii) : ascii :=
  let n := nat_of_ascii c in
  if (65 <=? n)%nat && (n <=? 90)%nat then ascii_of_nat (n + 32) else c.

Fixpoint lower (s : string) : string :=
  match s with
  | EmptyString => EmptyString
  | String d s' => String (lower_char d) (lower s')
  end.

(** [_splitnetloc(url, 2)]: drop the two leading characters, then cut at
    the earliest of ['/'], ['?'], ['#'] (the delimiter stays in the
    rest). *)
Fixpoint span_netloc (s : string) : string * string :=
  match s with
  | EmptyString => (EmptyString, EmptyString)
  | String d s' =>
      if contains d "/?#" then (EmptyString, s)
      else let '(n, r) := span_netloc s' in (String d n, r)
  end.

Definition _splitnetloc2 (url : string) : string * string :=
  match url with
  | String _ (String _ rest) => span_netloc rest
  | _ => (EmptyString, EmptyString)
  end.

Definition starts_with_slashes (url : string) : bool :=
  match url with
  | String a (String b _) => Ascii.eqb a "/" && Ascii.eqb b "/"
  | _ => false
  end.

Record SplitResult : Type := mkSplitResult {
  scheme : string;
  netloc : string;
  path : string;
  query : string;
  fragment : string
}.

(** The tail shared by both branches of [urlsplit], once the scheme has
    been decided:
<<
    if url[:2] == '//':
        netloc, url = _splitnetloc(url, 2)
        if (('[' in netloc and ']' not in netloc) or
                (']' in netloc and '[' not in netloc)):
            raise ValueError("Invalid IPv6 URL")
    if allow_fragments and '#' in url:
        url, fragment = url.split('#', 1)
    if '?' in url:
        url, query = url.split('?', 1)
    _checknetloc(netloc)
>>
    [_checknetloc] returns at once on an ASCII netloc, and the strings of
    this model are ASCII. *)
Definition split_rest (scheme url : string) : exn + SplitResult :=
  let '(netloc, url) :=
    if starts_with_slashes url then _splitnetloc2 url else (EmptyString, url) in
  if (contains "[" netloc && negb (contains "]" netloc))
     || (contains "]" netloc && negb (contains "[" netloc))
  then inl ValueError
  else
    let '(url, fragment) :=
      match split_once "#" url with
      | Some (u, f) => (u, f)
      | None => (url, EmptyString)
      end in
    let '(url, query) :=
      match split_once "?" url with
      | Some (u, q) => (u, q)
      | None => (url, EmptyString)
      end in
    inr (mkSplitResult scheme netloc url query fragment).

(** [urlsplit(url)] with the default [scheme=''] and
    [allow_fragments=True]:
<<
    i = url.find(':')
    if i > 0:
        if url[:i] == 'http':
            url = url[i+1:]
            ... (the tail above, with scheme 'http')
        for c in url[:i]:
            if c not in scheme_chars:
                break
        else:
            rest = url[i+1:]
            if not rest or any(c not in '0123456789' for c in rest):
                scheme, url = url[:i].lower(), rest
    ... (the tail above)
>>
    Releases after 3.8.0 first remove TAB, CR and LF from [url] and strip
    its leading blanks and control characters, take a scheme only when it
    starts with a letter, and raise on more bracketed hosts. On a text
    without those characters they cut the fragment where this one does, at
    the first ['#'] of what follows the scheme and the host. *)
Definition urlsplit (url : string) : exn + SplitResult :=
  match split_once ":" url with
  | Some (String c pre, rest) =>
      let pre := String c pre in
      if String.eqb pre "http" then split_rest "http" rest
      else if forallb (fun c => contains c scheme_chars) pre
      then if String.eqb rest EmptyString
              || negb (forallb (fun c => contains c digits) rest)
           then split_rest (lower pre) rest
           else split_rest EmptyString url
      else split_rest EmptyString url
  | _ => split_rest EmptyString url
  end.

(** [urlparse(url)] is [urlsplit(url)] followed by a split of the path at
    [';'] for the schemes that take parameters; scheme, netloc, query and
    fragment are those of [urlsplit]. The viewer reads [.fragment] only. *)
Definition urlparse (url : string) : exn + SplitResult := urlsplit url.

End urllib.

(** ** [pygraphviz.AGraph] *)

Module pgv.

(** The root graph and its subgraphs, as tables.

    - [nodes]: the node names, in creation order;
    - [attr]: the attribute values set on nodes, keyed by node name and
      attribute name (a node attribute is one value per node, whatever
      subgraph handle it was set through);
    - [edges]: the edge sequence;
    - [node_attr]: the defaults given through [graph.node_attr];
    - [subgraphs]: the subgraph names, in creation order;
    - [subgraph_attr]: the values set through [subgraph.graph_attr], keyed
      by subgraph name and attribute name;
    - [subgraph_nodes]: the pairs (subgraph, node) of the nodes installed
      in a subgraph, in installation order.

    Only values that were set are stored (an attribute never set on a
    node reads as its default in graphviz and is absent here). *)
Record AGraph : Type := mkAGraph {
  directed : bool;
  strict : bool;
  graph_attr : gmap string string;
  node_attr : gmap string string;
  nodes : list string;
  attr : gmap (string * string) string;
  edges : list (string * string);
  subgraphs : list string;
  subgraph_attr : gmap (string * string) string;
  subgraph_nodes : list (string * string)
}.

(** [pgv.AGraph(directed=d, strict=s)] *)
Definition AGraph_new (d s : bool) : AGraph :=
  mkAGraph d s ∅ ∅ [] ∅ [] [] ∅ [].

(** Field updates. *)
Definition upd_graph_attr (f : gmap string string -> gmap string string)
    (g : AGraph) : AGraph :=
  mkAGraph (directed g) (strict g) (f (graph_attr g)) (node_attr g) (nodes g)
           (attr g) (edges g) (subgraphs g) (subgraph_attr g) (subgraph_nodes g).

Definition upd_node_attr (f : gmap string string -> gmap string string)
    (g : AGraph) : AGraph :=
  mkAGraph (directed g) (strict g) (graph_attr g) (f (node_attr g)) (nodes g)
           (attr g) (edges g) (subgraphs g) (subgraph_attr g) (subgraph_nodes g).

Definition upd_nodes (f : list string -> list string) (g : AGraph) : AGraph :=
  mkAGraph (directed g) (strict g) (graph_attr g) (node_attr g) (f (nodes g))
           (attr g) (edges g) (subgraphs g) (subgraph_attr g) (subgraph_nodes g).

Definition upd_attr
    (f : gmap (string * string) string -> gmap (string * string) string)
    (g : AGraph) : AGraph :=
  mkAGraph (directed g) (strict g) (graph_attr g) (node_attr g) (nodes g)
           (f (attr g)) (edges g) (subgraphs g) (subgraph_attr g)
           (subgraph_nodes g).

Definition upd_edges (f : list (string * string) -> list (string * string))
    (g : AGraph) : AGraph :=
  mkAGraph (directed g) (strict g) (graph_attr g) (node_attr g) (nodes g)
           (attr g) (f (edges g)) (subgraphs g) (subgraph_attr g)
           (subgraph_nodes g).

Definition upd_subgraphs (f : list string -> list string) (g : AGraph) : AGraph :=
  mkAGraph (directed g) (strict g) (graph_attr g) (node_attr g) (nodes g)
           (attr g) (edges g) (f (subgraphs g)) (subgraph_attr g)
           (subgraph_nodes g).

Definition upd_subgraph_attr
    (f : gmap (string * string) string -> gmap (string * string) string)
    (g : AGraph) : AGraph :=
  mkAGraph (directed g) (strict g) (graph_attr g) (node_attr g) (nodes g)
           (attr g) (edges g) (subgraphs g) (f (subgraph_attr g))
           (subgraph_nodes g).

Definition upd_subgraph_nodes
    (f : list (string * string) -> list (string * string))
    (g : AGraph) : AGraph :=
  mkAGraph (directed g) (strict g) (graph_attr g) (node_attr g) (nodes g)
           (attr g) (edges g) (subgraphs g) (subgraph_attr g)
           (f (subgraph_nodes g)).

(** [graph.graph_attr[k] = v] *)
Definition set_graph_attr (k v : string) : AGraph -> AGraph :=
  upd_graph_attr <[k:=v]>.

(** [graph.node_attr[k] = v] *)
Definition set_node_attr (k v : string) : AGraph -> AGraph :=
  upd_node_attr <[k:=v]>.

(** Find [x] in a table ([_Action.find]) and add it at the end when it is
    not there ([_Action.create]). *)
Definition find_or_create {A} `{EqDecision A} (x : A) (l : list A) : list A :=
  if decide (x ∈ l) then l else l ++ [x].

(** [item.attr.update] with the keywords [kw]: one [__setitem__] per
    keyword, in order. *)
Definition update_attr (n : string) (kw : list (string * string))
    (a : gmap (string * string) string) : gmap (string * string) string :=
  foldl (fun a kv => <[(n, kv.1) := kv.2]> a) a kw.

(** [graph.add_node(n, kw...)] on the root graph. *)
Definition add_node (n : string) (kw : list (string * string))
    (g : AGraph) : AGraph :=
  upd_attr (update_attr n kw) (upd_nodes (find_or_create n) g).

Definition has_edge (u v : string) (g : AGraph) : bool :=
  bool_decide ((u, v) ∈ edges g)
  || (negb (directed g) && bool_decide ((v, u) ∈ edges g)).

(** [graph.add_edge(u, v)]: a missing end point is created with
    [self.add_node], then the edge is created; a strict graph finds the
    edge it already has instead. *)
Definition add_edge (u v : string) (g : AGraph) : AGraph :=
  let g := if decide (u ∈ nodes g) then g else add_node u [] g in
  let g := if decide (v ∈ nodes g) then g else add_node v [] g in
  if strict g && has_edge u v g then g
  else upd_edges (fun es : list (string * string) => es ++ [(u, v)]) g.

(** [graph.add_subgraph(name=name)]: [agsubg(g, name, create)] returns the
    subgraph of that name when there is one. The handle it returns is the
    name here. *)
Definition add_subgraph (name : string) : AGraph -> AGraph :=
  upd_subgraphs (find_or_create name).

(** [subgraph.graph_attr[k] = v] through the handle of [name]. *)
Definition subgraph_set_graph_attr (name k v : string) : AGraph -> AGraph :=
  upd_subgraph_attr <[(name, k) := v]>.

(** [subgraph.add_node(n, kw...)] through the handle of [name]: the node
    is looked up in the subgraph; when it is not there it is installed in
    it, and created in the root graph unless the root has it; then the
    attributes are set on the node. *)
Definition subgraph_add_node (name n : string) (kw : list (string * string))
    (g : AGraph) : AGraph :=
  upd_subgraph_nodes (find_or_create (name, n)) (add_node n kw g).

(** The nodes installed in subgraph [name]. *)
Definition in_subgraph (g : AGraph) (name n : string) : Prop :=
  (name, n) ∈ subgraph_nodes g.

(** [graph.get_node(n).attr[k]], for a value that was set. *)
Definition node_get (g : AGraph) (n k : string) : option string :=
  attr g !! (n, k).

End pgv.

(** ** Result rows and the fact graph *)

(** A row of [get_root.sparql]. *)
Record RootRow : Type := mkRootRow { workflow : string }.

(** A row of [get_inner_edges.sparql]; an unbound variable reads [None]. *)
Record InnerEdgeRow : Type := mkInnerEdgeRow {
  source_step : string;
  source_label : option string;
  target_step : string;
  target_label : option string
}.

(** A row of [get_input_edges.sparql]. *)
Module InputRow.
Record t : Type := mk { input : string; step : string }.
End InputRow.

(** A row of [get_output_edges.sparql]. *)
Module OutputRow.
Record t : Type := mk { output : string; step : string }.
End OutputRow.

Inductive query_name : Type :=
  | get_root | get_inner_edges | get_input_edges | get_output_edges.

(** The [rdflib] graph as the viewer sees it: the rows each bundled query
    returns on it, the last three as functions of [initBindings\['root_graph'\]].
    The query texts are read from [pycwlviewer/queries/]. *)
Record RdfGraph : Type := mkRdfGraph {
  root_rows : list RootRow;
  inner_edge_rows : string -> list InnerEdgeRow;
  input_edge_rows : string -> list InputRow.t;
  output_edge_rows : string -> list OutputRow.t
}.

(** Calls to the collaborators, in the order they are made. *)
Inductive call : Type :=
  | cwltool_print_rdf (filename : string)
  | rdflib_parse (data : string)
  | rdflib_query (q : query_name) (initBindings : option string).

(** ** The object [self] and the monad of its methods *)

Record CWLViewer : Type := mkCWLViewer {
  _filename : string;
  _dot_graph : pgv.AGraph;
  _rdf_graph : option RdfGraph;       (* [None]: not assigned yet *)
  _root_graph_uri : option string;    (* [None]: not assigned yet *)
  calls : list call                   (* ghost: the collaborator calls so far *)
}.

(** A method body: it reads and updates [self] and either returns or
    raises; a raise keeps the updates made before it. *)
Definition M (A : Type) : Type := CWLViewer -> (exn + A) * CWLViewer.

Global Instance M_ret : MRet M := fun A a self => (inr a, self).

Global Instance M_bind : MBind M := fun A B k m self =>
  match m self with
  | (inr a, self') => k a self'
  | (inl e, self') => (inl e, self')
  end.

Definition raise {A} (e : exn) : M A := fun self => (inl e, self).

(** [for x in xs: body(x)] *)
Fixpoint for_ {A} (xs : list A) (body : A -> M unit) : M unit :=
  match xs with
  | [] => mret tt
  | x :: xs' => body x ;; for_ xs' body
  end.

Definition lift {A} (r : exn + A) : M A := fun self => (r, self).

Definition log (c : call) : M unit :=
  fun self =>
    (inr tt, mkCWLViewer (_filename self) (_dot_graph self) (_rdf_graph self)
                         (_root_graph_uri self) (calls self ++ [c])).

(** [self._dot_graph.op(...)] *)
Definition on_dot_graph (op : pgv.AGraph -> pgv.AGraph) : M unit :=
  fun self =>
    (inr tt, mkCWLViewer (_filename self) (op (_dot_graph self)) (_rdf_graph self)
                         (_root_graph_uri self) (calls self)).

Definition get_rdf_graph : M RdfGraph :=
  fun self =>
    match _rdf_graph self with
    | Some g => (inr g, self)
    | None => (inl AttributeError, self)
    end.

Definition get_root_graph_uri_attr : M string :=
  fun self =>
    match _root_graph_uri self with
    | Some u => (inr u, self)
    | None => (inl AttributeError, self)
    end.

Definition set_filename (f : string) : M unit :=
  fun self =>
    (inr tt, mkCWLViewer f (_dot_graph self) (_rdf_graph self)
                         (_root_graph_uri self) (calls self)).

Definition set_dot_graph (g : pgv.AGraph) : M unit := on_dot_graph (fun _ => g).

Definition set_rdf_graph (g : RdfGraph) : M unit :=
  fun self =>
    (inr tt, mkCWLViewer (_filename self) (_dot_graph self) (Some g)
                         (_root_graph_uri self) (calls self)).

Definition set_root_graph_uri (u : string) : M unit :=
  fun self =>
    (inr tt, mkCWLViewer (_filename self) (_dot_graph self) (_rdf_graph self)
                         (Some u) (calls self)).

(** ** class [CWLViewer] *)

Section Viewer.

(** The collaborators outside the module: what [cwltool --print-rdf]
    writes to [stdout] for a file, and what [rdflib] makes of that text (it
    raises on text it cannot parse). *)
Variable print_rdf : string -> string.
Variable parse_n3 : string -> exn + RdfGraph.

(** [urlparse(uri).fragment] *)
Definition urlparse_fragment (uri : string) : M string :=
  r ← lift (urllib.urlparse uri);
  mret (urllib.fragment r).

Definition _init_dot_graph : pgv.AGraph :=
  let graph := pgv.AGraph_new true false in
  let graph := pgv.set_graph_attr "bgcolor" "#eeeeee" graph in
  let graph := pgv.set_graph_attr "labeljust" "left" graph in
  let graph := pgv.set_graph_attr "clusterrank" "local" graph in
  let graph := pgv.set_node_attr "shape" "record" graph in
  graph.

Definition _cwl2rdf : M string :=
  fun self =>
    (log (cwltool_print_rdf (_filename self));;
     mret (print_rdf (_filename self))) self.

Definition _load_cwl_graph : M RdfGraph :=
  data ← _cwl2rdf;
  log (rdflib_parse data);;
  lift (parse_n3 data).

(** The body of the loop of [_set_inner_edges]. *)
Definition inner_edge_body (inner_edge_row : InnerEdgeRow) : M unit :=
  source_label' ←
    match source_label inner_edge_row with
    | Some l => mret l
    | None => urlparse_fragment (source_step inner_edge_row)
    end;
  on_dot_graph (pgv.add_node (source_step inner_edge_row)
    [("fillcolor", "lightgoldenrodyellow"); ("style", "filled");
     ("label", source_label')]);;
  target_label' ←
    match target_label inner_edge_row with
    | Some l => mret l
    | None => urlparse_fragment (target_step inner_edge_row)
    end;
  on_dot_graph (pgv.add_node (target_step inner_edge_row)
    [("fillcolor", "lightgoldenrodyellow"); ("style", "filled");
     ("label", target_label')]);;
  on_dot_graph (pgv.add_edge (source_step inner_edge_row)
                             (target_step inner_edge_row)).

Definition _set_inner_edges : M unit :=
  rdf ← get_rdf_graph;
  root ← get_root_graph_uri_attr;
  log (rdflib_query get_inner_edges (Some root));;
  for_ (inner_edge_rows rdf root) inner_edge_body.

(** The body of the loop of [_set_input_edges]; [inputs_subgraph] is the
    handle of the subgraph ["cluster_inputs"]. *)
Definition input_edge_body (input_row : InputRow.t) : M unit :=
  label ← urlparse_fragment (InputRow.input input_row);
  on_dot_graph (pgv.subgraph_add_node "cluster_inputs" (InputRow.input input_row)
    [("fillcolor", "#94DDF4"); ("style", "filled"); ("label", label)]);;
  on_dot_graph (pgv.add_edge (InputRow.input input_row)
                             (InputRow.step input_row)).

Definition _set_input_edges : M unit :=
  on_dot_graph (pgv.add_subgraph "cluster_inputs");;
  on_dot_graph (pgv.subgraph_set_graph_attr "cluster_inputs" "rank" "same");;
  on_dot_graph (pgv.subgraph_set_graph_attr "cluster_inputs" "style" "dashed");;
  on_dot_graph (pgv.subgraph_set_graph_attr "cluster_inputs" "label"
                                            "Workflow Inputs");;
  rdf ← get_rdf_graph;
  root ← get_root_graph_uri_attr;
  log (rdflib_query get_input_edges (Some root));;
  for_ (input_edge_rows rdf root) input_edge_body.

(** The body of the loop of [_set_output_edges]; [outputs_graph] is the
    handle of the subgraph ["cluster_outputs"]. *)
Definition output_edge_body (output_edge_row : OutputRow.t) : M unit :=
  label ← urlparse_fragment (OutputRow.output output_edge_row);
  on_dot_graph (pgv.subgraph_add_node "cluster_outputs"
    (OutputRow.output output_edge_row)
    [("fillcolor", "#94DDF4"); ("style", "filled"); ("label", label)]);;
  on_dot_graph (pgv.add_edge (OutputRow.step output_edge_row)
                             (OutputRow.output output_edge_row)).

Definition _set_output_edges : M unit :=
  on_dot_graph (pgv.add_subgraph "cluster_outputs");;
  on_dot_graph (pgv.subgraph_set_graph_attr "cluster_outputs" "rank" "same");;
  on_dot_graph (pgv.subgraph_set_graph_attr "cluster_outputs" "style" "dashed");;
  on_dot_graph (pgv.subgraph_set_graph_attr "cluster_outputs" "label"
                                            "Workflow Outputs");;
  on_dot_graph (pgv.subgraph_set_graph_attr "cluster_outputs" "labelloc" "b");;
  rdf ← get_rdf_graph;
  root ← get_root_graph_uri_attr;
  log (rdflib_query get_output_edges (Some root));;
  for_ (output_edge_rows rdf root) output_edge_body.

Definition get_root_graph_uri : M string :=
  rdf ← get_rdf_graph;
  log (rdflib_query get_root None);;
  match root_rows rdf with
  | [] => raise IndexError
  | root :: _ => mret (workflow root)
  end.

Definition __init__ (filename : string) : M unit :=
  set_filename filename;;
  set_dot_graph _init_dot_graph;;
  rdf ← _load_cwl_graph;
  set_rdf_graph rdf;;
  root ← get_root_graph_uri;
  set_root_graph_uri root;;
  _set_inner_edges;;
  _set_input_edges;;
  _set_output_edges.

(** The object before [__init__] runs: no attribute has been assigned;
    [__init__] overwrites the two placeholders before it reads them. *)
Definition object_new : CWLViewer :=
  mkCWLViewer "" (pgv.AGraph_new false false) None None [].

(** [CWLViewer(filename)]: the built object, or the exception that
    [__init__] raised. *)
Definition CWLViewer_new (filename : string) : exn + CWLViewer :=
  match __init__ filename object_new with
  | (inr _, self) => inr self
  | (inl e, _) => inl e
  end.

End Viewer.

(** ** Vocabulary of the specification *)

(** The text after the first ['#'] of a URI, empty when there is none. *)
Fixpoint after_first_hash (s : string) : string :=
  match s with
  | EmptyString => EmptyString
  | String c s' => if Ascii.eqb c "#" then s' else after_first_hash s'
  end.

(** The text after the last ['#'] of a URI, empty when there is none. *)
Fixpoint after_last_hash (s : string) : string :=
  match s with
  | EmptyString => EmptyString
  | String c s' =>
      if urllib.contains "#" s' then after_last_hash s'
      else if Ascii.eqb c "#" then s' else EmptyString
  end.

(** The characters an RFC 3986 URI is written with: the unreserved ones,
    ['%'] of a percent-encoding, the sub-delimiters and the general
    delimiters. *)
Definition uri_chars : string :=
  "abcdefghijklmnopqrstuvwxyzABCDEFGHIJKLMNOPQRSTUVWXYZ0123456789-._~%!$&'()*+,;=:/?#[]@".

(** A text that has the shape of a URI: it is written with URI characters
    and has at most one ['#'], which RFC 3986 allows only as the delimiter
    of the fragment. *)
Definition uri_text (s : string) : bool :=
  urllib.forallb (fun c => urllib.contains c uri_chars) s
  && negb (urllib.contains "#" (after_first_hash s)).

(** The label a node gets from a declared label and its URI: the declared
    label when the query bound one, the fragment otherwise. *)
Definition resolved_label (declared : option string) (uri : string) : string :=
  match declared with
  | Some l => l
  | None => after_first_hash uri
  end.


Definition boundary_fill (g : pgv.AGraph) (n : string) : Prop :=
  pgv.node_get g n "fillcolor" = Some "#94DDF4"
  ∧ pgv.node_get g n "style" = Some "filled".

Definition boundary_input (g : pgv.AGraph) (n : string) : Prop :=
  boundary_fill g n ∧ pgv.in_subgraph g "cluster_inputs" n.

Definition boundary_output (g : pgv.AGraph) (n : string) : Prop :=
  boundary_fill g n ∧ pgv.in_subgraph g "cluster_outputs" n.

(** A node on which no attribute was ever set: it is drawn with the
    defaults of the graph and its own name. *)
Definition unstyled (g : pgv.AGraph) (n : string) : Prop :=
  ∀ k, pgv.node_get g n k = None.


(** The edges each extractor adds, one per row, in row order. *)
Definition inner_edges (rows : list InnerEdgeRow) : list (string * string) :=
  (fun r => (source_step r, target_step r)) <$> rows.

Definition input_edges (rows : list InputRow.t) : list (string * string) :=
  (fun r => (InputRow.input r, InputRow.step r)) <$> rows.

Definition output_edges (rows : list OutputRow.t) : list (string * string) :=
  (fun r => (OutputRow.step r, OutputRow.output r)) <$> rows.

(** ** Net effect of a run of graph operations

    On a graph that is not strict every operation the viewer uses only adds
    to the tables: names are found or created, attribute values are
    written, edges are appended. A [delta] records what a run adds, table by
    table and in order. *)

Definition creates {A} `{EqDecision A} (xs : list A) (l : list A) : list A :=
  foldl (fun l x => pgv.find_or_create x l) l xs.

Definition inserts {K V} `{Countable K} (ws : list (K * V)) (m : gmap K V)
    : gmap K V :=
  foldl (fun m kv => <[kv.1 := kv.2]> m) m ws.

Record delta : Type := mkDelta {
  d_nodes : list string;
  d_attr : list ((string * string) * string);
  d_edges : list (string * string);
  d_subgraphs : list string;
  d_subgraph_attr : list ((string * string) * string);
  d_subgraph_nodes : list (string * string)
}.

Definition apply_delta (d : delta) (g : pgv.AGraph) : pgv.AGraph :=
  pgv.mkAGraph (pgv.directed g) (pgv.strict g) (pgv.graph_attr g)
    (pgv.node_attr g)
    (creates (d_nodes d) (pgv.nodes g))
    (inserts (d_attr d) (pgv.attr g))
    (pgv.edges g ++ d_edges d)
    (creates (d_subgraphs d) (pgv.subgraphs g))
    (inserts (d_subgraph_attr d) (pgv.subgraph_attr g))
    (creates (d_subgraph_nodes d) (pgv.subgraph_nodes g)).

Definition dnil : delta := mkDelta [] [] [] [] [] [].

Definition dapp (d1 d2 : delta) : delta :=
  mkDelta (d_nodes d1 ++ d_nodes d2) (d_attr d1 ++ d_attr d2)
          (d_edges d1 ++ d_edges d2) (d_subgraphs d1 ++ d_subgraphs d2)
          (d_subgraph_attr d1 ++ d_subgraph_attr d2)
          (d_subgraph_nodes d1 ++ d_subgraph_nodes d2).

Definition dconcat (ds : list delta) : delta := foldr dapp dnil ds.

Definition kw_writes (n : string) (kw : list (string * string))
    : list ((string * string) * string) :=
  (fun kv => ((n, kv.1), kv.2)) <$> kw.

Definition node_delta (n : string) (kw : list (string * string)) : delta :=
  mkDelta [n] (kw_writes n kw) [] [] [] [].

Definition edge_delta (u v : string) : delta :=
  mkDelta [u; v] [] [(u, v)] [] [] [].

Definition subgraph_node_delta (name n : string) (kw : list (string * string))
    : delta :=
  mkDelta [n] (kw_writes n kw) [] [] [] [(name, n)].

Definition subgraph_delta (name : string) (ga : list (string * string)) : delta :=
  mkDelta [] [] [] [name] (kw_writes name ga) [].

Definition step_kw (label : string) : list (string * string) :=
  [("fillcolor", "lightgoldenrodyellow"); ("style", "filled"); ("label", label)].

Definition boundary_kw (label : string) : list (string * string) :=
  [("fillcolor", "#94DDF4"); ("style", "filled"); ("label", label)].

Definition inner_row_delta (r : InnerEdgeRow) : delta :=
  dapp (node_delta (source_step r)
          (step_kw (resolved_label (source_label r) (source_step r))))
  (dapp (node_delta (target_step r)
          (step_kw (resolved_label (target_label r) (target_step r))))
        (edge_delta (source_step r) (target_step r))).

Definition input_row_delta (r : InputRow.t) : delta :=
  dapp (subgraph_node_delta "cluster_inputs" (InputRow.input r)
          (boundary_kw (after_first_hash (InputRow.input r))))
       (edge_delta (InputRow.input r) (InputRow.step r)).

Definition output_row_delta (r : OutputRow.t) : delta :=
  dapp (subgraph_node_delta "cluster_outputs" (OutputRow.output r)
          (boundary_kw (after_first_hash (OutputRow.output r))))
       (edge_delta (OutputRow.step r) (OutputRow.output r)).

Definition inner_delta (rows : list InnerEdgeRow) : delta :=
  dconcat (inner_row_delta <$> rows).

Definition input_delta (rows : list InputRow.t) : delta :=
  dapp (subgraph_delta "cluster_inputs"
          [("rank", "same"); ("style", "dashed"); ("label", "Workflow Inputs")])
       (dconcat (input_row_delta <$> rows)).

Definition output_delta (rows : list OutputRow.t) : delta :=
  dapp (subgraph_delta "cluster_outputs"
          [("rank", "same"); ("style", "dashed"); ("label", "Workflow Outputs");
           ("labelloc", "b")])
       (dconcat (output_row_delta <$> rows)).

(** One iteration of each loop as a function of the graph, with the labels
    resolved. *)
Definition inner_step (r : InnerEdgeRow) (g : pgv.AGraph) : pgv.AGraph :=
  pgv.add_edge (source_step r) (target_step r)
    (pgv.add_node (target_step r)
       (step_kw (resolved_label (target_label r) (target_step r)))
       (pgv.add_node (source_step r)
          (step_kw (resolved_label (source_label r) (source_step r))) g)).

Definition input_step (r : InputRow.t) (g : pgv.AGraph) : pgv.AGraph :=
  pgv.add_edge (InputRow.input r) (InputRow.step r)
    (pgv.subgraph_add_node "cluster_inputs" (InputRow.input r)
       (boundary_kw (after_first_hash (InputRow.input r))) g).

Definition output_step (r : OutputRow.t) (g : pgv.AGraph) : pgv.AGraph :=
  pgv.add_edge (OutputRow.step r) (OutputRow.output r)
    (pgv.subgraph_add_node "cluster_outputs" (OutputRow.output r)
       (boundary_kw (after_first_hash (OutputRow.output r))) g).

(** The rows on which [urlparse] returns for every URI the loop body hands
    it. *)
Definition parses (uri : string) : Prop :=
  ∃ r, urllib.urlparse uri = inr r.

Definition inner_row_ok (r : InnerEdgeRow) : Prop :=
  (source_label r = None → parses (source_step r))
  ∧ (target_label r = None → parses (target_step r)).

Definition with_dot_graph (g : pgv.AGraph) (self : CWLViewer) : CWLViewer :=
  mkCWLViewer (_filename self) g (_rdf_graph self) (_root_graph_uri self)
              (calls self).

Definition with_call (c : call) (self : CWLViewer) : CWLViewer :=
  mkCWLViewer (_filename self) (_dot_graph self) (_rdf_graph self)
              (_root_graph_uri self) (calls self ++ [c]).

(** ** Runs that return, their calls and their graph *)

(** The rows on which a whole loop returns. *)
Definition inner_rows_ok (rows : list InnerEdgeRow) : Prop :=
  Forall inner_row_ok rows.

Definition input_rows_ok (rows : list InputRow.t) : Prop :=
  Forall (fun r => parses (InputRow.input r)) rows.

Definition output_rows_ok (rows : list OutputRow.t) : Prop :=
  Forall (fun r => parses (OutputRow.output r)) rows.

(** The rows of a fact graph on which all three extractors return. *)
Definition rows_ok (rdf : RdfGraph) (root : string) : Prop :=
  inner_rows_ok (inner_edge_rows rdf root)
  ∧ input_rows_ok (input_edge_rows rdf root)
  ∧ output_rows_ok (output_edge_rows rdf root).

(** An extractor logs its query, bound to [self._root_graph_uri], and
    nothing else; it logs nothing when an attribute it reads is missing. *)
Definition extractor_calls (q : query_name) (self : CWLViewer) : list call :=
  match _rdf_graph self, _root_graph_uri self with
  | Some _, Some root => calls self ++ [rdflib_query q (Some root)]
  | _, _ => calls self
  end.

(** The collaborator calls of a complete construction. *)
Definition pipeline_calls (filename data root : string) : list call :=
  [cwltool_print_rdf filename; rdflib_parse data; rdflib_query get_root None;
   rdflib_query get_inner_edges (Some root);
   rdflib_query get_input_edges (Some root);
   rdflib_query get_output_edges (Some root)].

(** The graph of a complete construction: the three extractors' additions
    to the initial graph, in this order. *)
Definition built_graph (rdf : RdfGraph) (root : string) : pgv.AGraph :=
  apply_delta (output_delta (output_edge_rows rdf root))
    (apply_delta (input_delta (input_edge_rows rdf root))
       (apply_delta (inner_delta (inner_edge_rows rdf root)) _init_dot_graph)).

(** ** Labels and boundary nodes *)

(** The label a row asks for, read off the code: the declared label
    whenever the query bound one, else the fragment [urlparse] returns. *)
Definition carries_label (g : pgv.AGraph) (uri : string)
    (declared : option string) : Prop :=
  match declared with
  | Some l => pgv.node_get g uri "label" = Some l
  | None => ∃ p, urllib.urlparse uri = inr p
                 ∧ pgv.node_get g uri "label" = Some (urllib.fragment p)
  end.

(** The label rule as the specification words it: the declared label when
    it is present and not empty, else the fragment. *)
Definition claimed_label (declared : option string) (uri : string) : string :=
  match declared with
  | Some l => if String.eqb l "" then after_first_hash uri else l
  | None => after_first_hash uri
  end.

(** What the specification asks of the node of a boundary row: it is a node
    of the graph, it carries the boundary style and sits in the cluster, and
    its label is the fragment of its own URI. *)
Definition boundary_node (g : pgv.AGraph) (cluster uri : string) : Prop :=
  uri ∈ pgv.nodes g
  ∧ boundary_fill g uri
  ∧ pgv.in_subgraph g cluster uri
  ∧ ∃ p, urllib.urlparse uri = inr p
         ∧ pgv.node_get g uri "label" = Some (urllib.fragment p).

(** ** The extractors as a family *)

(** The three extractors as one family. *)
Inductive extractor : Type := InnerEdges | InputEdges | OutputEdges.

Definition run_extractor (e : extractor) : M unit :=
  match e with
  | InnerEdges => _set_inner_edges
  | InputEdges => _set_input_edges
  | OutputEdges => _set_output_edges
  end.

(** The edges of an extractor: one per row of its query, in row order. *)
Definition extractor_edges (e : extractor) (rdf : RdfGraph) (root : string)
    : list (string * string) :=
  match e with
  | InnerEdges => inner_edges (inner_edge_rows rdf root)
  | InputEdges => input_edges (input_edge_rows rdf root)
  | OutputEdges => output_edges (output_edge_rows rdf root)
  end.

(** What an extractor adds to the graph, the query it sends, and the rows
    on which it returns. *)
Definition extractor_delta (e : extractor) (rdf : RdfGraph) (root : string)
    : delta :=
  match e with
  | InnerEdges => inner_delta (inner_edge_rows rdf root)
  | InputEdges => input_delta (input_edge_rows rdf root)
  | OutputEdges => output_delta (output_edge_rows rdf root)
  end.

Definition extractor_query (e : extractor) : query_name :=
  match e with
  | InnerEdges => get_inner_edges
  | InputEdges => get_input_edges
  | OutputEdges => get_output_edges
  end.

Definition extractor_ok (e : extractor) (rdf : RdfGraph) (root : string) : Prop :=
  match e with
  | InnerEdges => inner_rows_ok (inner_edge_rows rdf root)
  | InputEdges => input_rows_ok (input_edge_rows rdf root)
  | OutputEdges => output_rows_ok (output_edge_rows rdf root)
  end.

(** The graph but for its edge sequence. *)
Definition without_edges (g : pgv.AGraph) : pgv.AGraph :=
  pgv.upd_edges (fun _ => []) g.

(** ** The URIs of a fact graph by role *)

(** The URIs the three queries return, by the role they play. *)
Definition is_inner_step (rdf : RdfGraph) (root n : string) : Prop :=
  ∃ r, r ∈ inner_edge_rows rdf root ∧ (n = source_step r ∨ n = target_step r).

Definition is_input_uri (rdf : RdfGraph) (root n : string) : Prop :=
  ∃ r, r ∈ input_edge_rows rdf root ∧ InputRow.input r = n.

Definition is_output_uri (rdf : RdfGraph) (root n : string) : Prop :=
  ∃ r, r ∈ output_edge_rows rdf root ∧ OutputRow.output r = n.

Definition is_boundary_step (rdf : RdfGraph) (root s : string) : Prop :=
  (∃ r, r ∈ input_edge_rows rdf root ∧ InputRow.step r = s)
  ∨ (∃ r, r ∈ output_edge_rows rdf root ∧ OutputRow.step r = s).

(** ** Example fact graphs *)

(** A fact graph for examples: two steps [s1 -> s2] with declared labels,
    one input feeding [s1], one output produced by [s2]. *)
Definition two_step_rdf : RdfGraph :=
  mkRdfGraph
    [mkRootRow "file:///wf.cwl#main"]
    (fun _ => [mkInnerEdgeRow "file:///wf.cwl#main/s1" (Some "Step A")
                              "file:///wf.cwl#main/s2" (Some "Step B")])
    (fun _ => [InputRow.mk "file:///wf.cwl#main/i" "file:///wf.cwl#main/s1"])
    (fun _ => [OutputRow.mk "file:///wf.cwl#main/o" "file:///wf.cwl#main/s2"]).

(** A viewer on which the extractors can run: the fact graph and the root
    are assigned, the dot graph is the initial one. *)
Definition two_step_self : CWLViewer :=
  mkCWLViewer "wf.cwl" _init_dot_graph (Some two_step_rdf)
              (Some "file:///wf.cwl#main") [].

(** A fact graph on which the root query returns no row. *)
Definition rootless_rdf : RdfGraph :=
  mkRdfGraph [] (fun _ => []) (fun _ => []) (fun _ => []).

(** A workflow with a single step: no inner edge, one input, one output. *)
Definition single_step_rdf : RdfGraph :=
  mkRdfGraph
    [mkRootRow "file:///wf.cwl#main"]
    (fun _ => [])
    (fun _ => [InputRow.mk "file:///wf.cwl#main/i" "file:///wf.cwl#main/s"])
    (fun _ => [OutputRow.mk "file:///wf.cwl#main/o" "file:///wf.cwl#main/s"]).

(** A fact graph in which the step of one input row is the input of
    another. *)
Definition step_as_input_rdf : RdfGraph :=
  mkRdfGraph
    [mkRootRow "file:///wf.cwl#main"]
    (fun _ => [])
    (fun _ => [InputRow.mk "file:///wf.cwl#main/i" "file:///wf.cwl#main/x";
               InputRow.mk "file:///wf.cwl#main/x" "file:///wf.cwl#main/y"])
    (fun _ => []).

(** Two runs of an extractor on the two-step example. *)
Definition C5_example (e : extractor) : Prop :=
  ∃ self1 self2,
    run_extractor e two_step_self = (inr tt, self1)
    ∧ run_extractor e self1 = (inr tt, self2)
    ∧ pgv.nodes (_dot_graph self2) = pgv.nodes (_dot_graph self1)
    ∧ pgv.attr (_dot_graph self2) = pgv.attr (_dot_graph self1)
    ∧ pgv.edges (_dot_graph self2)
      = extractor_edges e two_step_rdf "file:///wf.cwl#main"
        ++ extractor_edges e two_step_rdf "file:///wf.cwl#main".

(** ** [setup.py]: the version string of the package *)

Module setup.

(** The exceptions of [get_version]. *)
Inductive error : Type :=
| OSError        (* [codecs.open]: the file cannot be opened *)
| RuntimeError   (* "Unable to find version string." *)
| IndexError.    (* [line.split(delim)\[1\]] on a line without [delim] *)

Definition dquote : ascii := "034"%char.
Definition squote : ascii := "'"%char.

(** The line boundaries of [str.splitlines] among the first 256 code
    points: LF, VT, FF, CR, FS, GS, RS and NEL. *)
Definition linebreaks : string :=
String "010" (String "011" (String "012" (String "013" (String "028"
  (String "029" (String "030" (String "133" EmptyString))))))).

Definition is_linebreak (c : ascii) : bool := urllib.contains c linebreaks.

(** [s.splitlines()]: a line ends at a line boundary, CR LF counts as one
    boundary, and a text that ends with a boundary has no empty last
    line. *)
Fixpoint splitlines (s : string) : list string :=
match s with
| EmptyString => []
| String c s' =>
    if is_linebreak c then
      match s' with
      | String d s'' =>
          if Ascii.eqb c "013" && Ascii.eqb d "010"
          then EmptyString :: splitlines s''
          else EmptyString :: splitlines s'
      | EmptyString => [EmptyString]
      end
    else match splitlines s' with
         | [] => [String c EmptyString]
         | l :: ls => String c l :: ls
         end
end.

(** [s.split(sep)] for a one-character [sep]: the pieces between the
    occurrences of [sep], at least one piece. *)
Fixpoint split (sep : ascii) (s : string) : list string :=
match s with
| EmptyString => [EmptyString]
| String c s' =>
    if Ascii.eqb c sep then EmptyString :: split sep s'
    else match split sep s' with
         | [] => [String c EmptyString]
         | l :: ls => String c l :: ls
         end
end.

(** The [for] loop of [get_version] with its [else] branch: the first line
    that starts with [__version__] decides. *)
Fixpoint get_version_loop (lines : list string) : error + string :=
match lines with
| [] => inl RuntimeError
| line :: rest =>
    if String.prefix "__version__" line then
      let delim := if urllib.contains dquote line then dquote else squote in
      match split delim line !! 1%nat with
      | Some version => inr version
      | None => inl IndexError
      end
    else get_version_loop rest
end.

(** [get_version(rel_path)]; [read rel_path] is the text of the file, [None]
    when it cannot be opened. *)
Definition get_version (read : string -> option string) (rel_path : string)
  : error + string :=
match read rel_path with
| None => inl OSError
| Some text => get_version_loop (splitlines text)
end.

(** A text file written line by line, each line ended by LF. *)
Fixpoint unlines (lines : list string) : string :=
match lines with
| [] => EmptyString
| l :: ls => String.append l (String "010" (unlines ls))
end.

Definition no_linebreak (l : string) : Prop :=
urllib.forallb (fun c => negb (is_linebreak c)) l = true.

Definition version_line (l : string) : Prop :=
String.prefix "__version__" l = true.

End setup.

(** ** Invariants of the diagram *)

(** A graph whose tables fit together: no name twice in a table, every end
    of an edge, every member of a subgraph and every node with an attribute
    is in the node table. *)
Definition well_formed (g : pgv.AGraph) : Prop :=
  NoDup (pgv.nodes g)
  ∧ NoDup (pgv.subgraphs g)
  ∧ NoDup (pgv.subgraph_nodes g)
  ∧ (∀ u v, (u, v) ∈ pgv.edges g → u ∈ pgv.nodes g ∧ v ∈ pgv.nodes g)
  ∧ (∀ sg n, (sg, n) ∈ pgv.subgraph_nodes g → n ∈ pgv.nodes g)
  ∧ (∀ n k, is_Some (pgv.attr g !! (n, k)) → n ∈ pgv.nodes g).

(** [g'] has everything [g0] has: every entry of a table of [g0] is in that
    table of [g'] at least as many times (an edge of a graph that is not
    strict can be there several times), whatever the order the tables are
    listed in; attributes were set or overwritten, never removed; the kind
    of the graph is the same. *)
Definition extends (g0 g' : pgv.AGraph) : Prop :=
  pgv.nodes g0 ⊆+ pgv.nodes g'
  ∧ pgv.edges g0 ⊆+ pgv.edges g'
  ∧ pgv.subgraphs g0 ⊆+ pgv.subgraphs g'
  ∧ pgv.subgraph_nodes g0 ⊆+ pgv.subgraph_nodes g'
  ∧ (∀ key, is_Some (pgv.attr g0 !! key) → is_Some (pgv.attr g' !! key))
  ∧ pgv.directed g' = pgv.directed g0
  ∧ pgv.strict g' = pgv.strict g0.

(** A property of graphs that each of the five operations the extractors
    use keeps. *)
Definition op_closed (P : pgv.AGraph → Prop) : Prop :=
  (∀ n kw g, P g → P (pgv.add_node n kw g))
  ∧ (∀ u v g, P g → P (pgv.add_edge u v g))
  ∧ (∀ name g, P g → P (pgv.add_subgraph name g))
  ∧ (∀ name k v g, P g → P (pgv.subgraph_set_graph_attr name k v g))
  ∧ (∀ name n kw g, P g → P (pgv.subgraph_add_node name n kw g)).

(** A computation that keeps an invariant of [self], whether it returns or
    raises. *)
Definition preserves {A} (I : CWLViewer → Prop) (m : M A) : Prop :=
  ∀ self, I self → I (m self).2.

(** The attributes of the two clusters. *)
Definition cluster_attrs : gmap (string * string) string :=
  list_to_map
    [(("cluster_inputs", "rank"), "same");
     (("cluster_inputs", "style"), "dashed");
     (("cluster_inputs", "label"), "Workflow Inputs");
     (("cluster_outputs", "rank"), "same");
     (("cluster_outputs", "style"), "dashed");
     (("cluster_outputs", "label"), "Workflow Outputs");
     (("cluster_outputs", "labelloc"), "b")].

(** A fact graph with a root and no row at all. *)
Definition empty_workflow_rdf : RdfGraph :=
  mkRdfGraph [mkRootRow "file:///wf.cwl#main"] (fun _ => []) (fun _ => [])
             (fun _ => []).

(** A fact graph in which the step [s2] is labelled by two inner rows and
    the step [s1] is also returned as an input. *)
Definition relabelled_rdf : RdfGraph :=
  mkRdfGraph
    [mkRootRow "file:///wf.cwl#main"]
    (fun _ => [mkInnerEdgeRow "file:///wf.cwl#main/s1" (Some "Step A")
                              "file:///wf.cwl#main/s2" (Some "first");
               mkInnerEdgeRow "file:///wf.cwl#main/s2" (Some "second")
                              "file:///wf.cwl#main/s3" None])
    (fun _ => [InputRow.mk "file:///wf.cwl#main/s1" "file:///wf.cwl#main/s2"])
    (fun _ => []).

(** A fact graph whose second input row and second output row carry a URI
    on which [urlparse] raises, and the fact graph with only the rows before
    them. *)
Definition bad_row_rdf : RdfGraph :=
  mkRdfGraph
    [mkRootRow "file:///wf.cwl#main"]
    (fun _ => [])
    (fun _ => [InputRow.mk "file:///wf.cwl#main/i" "file:///wf.cwl#main/s";
               InputRow.mk "http://[::1/wf#j" "file:///wf.cwl#main/s";
               InputRow.mk "file:///wf.cwl#main/k" "file:///wf.cwl#main/s"])
    (fun _ => [OutputRow.mk "file:///wf.cwl#main/o" "file:///wf.cwl#main/s";
               OutputRow.mk "http://[::1/wf#p" "file:///wf.cwl#main/s"]).

Definition good_prefix_rdf : RdfGraph :=
  mkRdfGraph
    [mkRootRow "file:///wf.cwl#main"]
    (fun _ => [])
    (fun _ => [InputRow.mk "file:///wf.cwl#main/i" "file:///wf.cwl#main/s"])
    (fun _ => [OutputRow.mk "file:///wf.cwl#main/o" "file:///wf.cwl#main/s"]).

(** * Proofs *)

(** ** [urlsplit] on examples *)

Example urlsplit_ex1 :
  urllib.urlsplit "http://ex.org/wf?x=1#step1"
  = inr (urllib.mkSplitResult "http" "ex.org" "/wf" "x=1" "step1").
Proof. reflexivity. Qed.

Example urlsplit_ex2 :
  urllib.urlsplit "file:///tmp/wf.cwl#main/in"
  = inr (urllib.mkSplitResult "file" "" "/tmp/wf.cwl" "" "main/in").
Proof. reflexivity. Qed.

Example urlsplit_ex3 : urllib.urlsplit "http://[::1/wf#a" = inl ValueError.
Proof. reflexivity. Qed.

(** ** Tables *)

Section tables.
Context {A : Type} `{EqDecision A}.
Implicit Types (x : A) (l xs : list A).

Lemma elem_of_find_or_create x y l :
  y ∈ pgv.find_or_create x l ↔ y ∈ l ∨ y = x.
Proof.
  unfold pgv.find_or_create. case_decide.
  - split; [by left | intros [?| ->]; done].
  - rewrite elem_of_app, list_elem_of_singleton. done.
Qed.

Lemma find_or_create_elem x l : x ∈ l → pgv.find_or_create x l = l.
Proof. intros. unfold pgv.find_or_create. by case_decide. Qed.

Lemma creates_app xs ys l : creates (xs ++ ys) l = creates ys (creates xs l).
Proof. unfold creates. by rewrite foldl_app. Qed.

Lemma elem_of_creates xs : ∀ l y, y ∈ creates xs l ↔ y ∈ l ∨ y ∈ xs.
Proof.
  induction xs as [|x xs IH]; intros l y; simpl.
  - rewrite elem_of_nil. tauto.
  - change (creates (x :: xs) l) with (creates xs (pgv.find_or_create x l)).
    rewrite IH, elem_of_find_or_create, elem_of_cons. tauto.
Qed.

Lemma creates_id xs : ∀ l, (∀ x, x ∈ xs → x ∈ l) → creates xs l = l.
Proof.
  induction xs as [|x xs IH]; intros l Hin; [done|].
  change (creates (x :: xs) l) with (creates xs (pgv.find_or_create x l)).
  rewrite find_or_create_elem by (apply Hin; left).
  apply IH. intros y Hy. apply Hin. by right.
Qed.

Lemma creates_idemp xs l : creates xs (creates xs l) = creates xs l.
Proof. apply creates_id. intros x Hx. apply elem_of_creates. by right. Qed.

Lemma creates_prefix xs : ∀ l, l `prefix_of` creates xs l.
Proof.
  induction xs as [|x xs IH]; intros l; [done|].
  change (creates (x :: xs) l) with (creates xs (pgv.find_or_create x l)).
  etrans; [|apply IH]. unfold pgv.find_or_create.
  case_decide; [done | by apply prefix_app_r].
Qed.
End tables.

Section stores.
Context {K V : Type} `{Countable K}.
Implicit Types (k : K) (v : V) (m : gmap K V) (ws : list (K * V)).

Lemma inserts_app ws1 ws2 m : inserts (ws1 ++ ws2) m = inserts ws2 (inserts ws1 m).
Proof. unfold inserts. by rewrite foldl_app. Qed.

Lemma inserts_union ws : ∀ m1 m2, inserts ws (m1 ∪ m2) = inserts ws m1 ∪ m2.
Proof.
  induction ws as [|[k v] ws IH]; intros m1 m2; [done|].
  change (inserts ((k, v) :: ws) (m1 ∪ m2))
    with (inserts ws (<[k:=v]> (m1 ∪ m2))).
  by rewrite insert_union_l, IH.
Qed.

Lemma inserts_closed ws m : inserts ws m = inserts ws ∅ ∪ m.
Proof. by rewrite <- inserts_union, (left_id_L ∅ (∪)). Qed.

Lemma inserts_idemp ws m : inserts ws (inserts ws m) = inserts ws m.
Proof.
  rewrite (inserts_closed ws (inserts ws m)), (inserts_closed ws m).
  by rewrite (assoc_L (∪)), (idemp_L (∪)).
Qed.

Lemma lookup_inserts_inv ws : ∀ m k v,
  inserts ws m !! k = Some v → m !! k = Some v ∨ (k, v) ∈ ws.
Proof.
  induction ws as [|[k' v'] ws IH]; intros m k v Hl; [by left|].
  change (inserts ((k', v') :: ws) m) with (inserts ws (<[k':=v']> m)) in Hl.
  apply IH in Hl as [Hl|Hl]; [|right; by right].
  rewrite lookup_insert in Hl. case_decide; simplify_eq.
  - right. by left.
  - by left.
Qed.

Lemma lookup_inserts_notin ws m k :
  (∀ v, (k, v) ∉ ws) → inserts ws m !! k = m !! k.
Proof.
  intros Hn. destruct (inserts ws m !! k) as [v|] eqn:E.
  - apply lookup_inserts_inv in E as [E|E]; [done|]. by apply Hn in E.
  - revert m E. induction ws as [|[k' v'] ws IH]; intros m E; [done|].
    change (inserts ((k', v') :: ws) m) with (inserts ws (<[k':=v']> m)) in E.
    apply IH in E.
    + rewrite lookup_insert in E. by case_decide.
    + intros v Hv. apply (Hn v). by right.
Qed.

Lemma lookup_inserts_keep ws : ∀ m k v,
  m !! k = Some v → (∀ v', (k, v') ∈ ws → v' = v) →
  inserts ws m !! k = Some v.
Proof.
  induction ws as [|[k' v'] ws IH]; intros m k v Hm Hall; [done|].
  change (inserts ((k', v') :: ws) m) with (inserts ws (<[k':=v']> m)).
  apply IH.
  - rewrite lookup_insert. case_decide; [|done].
    subst k'. f_equal. apply Hall. by left.
  - intros v'' Hv. apply Hall. by right.
Qed.

Lemma lookup_inserts_const ws : ∀ m k v,
  (∃ v', (k, v') ∈ ws) → (∀ v', (k, v') ∈ ws → v' = v) →
  inserts ws m !! k = Some v.
Proof.
  induction ws as [|[k' v'] ws IH]; intros m k v [w Hw] Hall.
  - by apply elem_of_nil in Hw.
  - change (inserts ((k', v') :: ws) m) with (inserts ws (<[k':=v']> m)).
    apply elem_of_cons in Hw as [Hw|Hw].
    + simplify_eq. apply lookup_inserts_keep.
      * rewrite lookup_insert_eq. f_equal. apply Hall. by left.
      * intros v'' Hv. apply Hall. by right.
    + apply IH; [by exists w|]. intros v'' Hv. apply Hall. by right.
Qed.
End stores.

(** ** [urlparse(uri).fragment] is the text after the first ['#'] *)

Section fragment.
Import urllib.

Lemma append_cons d l r :
  String.append (String d l) r = String d (String.append l r).
Proof. reflexivity. Qed.

Lemma split_once_Some c : ∀ s l r,
  split_once c s = Some (l, r) →
  s = String.append l (String c r) ∧ contains c l = false.
Proof.
  induction s as [|d s IH]; intros l r Hs; cbn [split_once] in Hs; [done|].
  destruct (Ascii.eqb_spec c d) as [->|Hne].
  - by simplify_eq.
  - destruct (split_once c s) as [[l' r']|] eqn:E; simplify_eq.
    destruct (IH l' r eq_refl) as [-> Hc].
    rewrite append_cons. cbn [contains]. split; [done|].
    by destruct (Ascii.eqb_spec c d).
Qed.

Lemma split_once_None c : ∀ s, split_once c s = None → contains c s = false.
Proof.
  induction s as [|d s IH]; intros Hs; [done|].
  cbn [split_once] in Hs. cbn [contains].
  destruct (Ascii.eqb c d); [done|].
  destruct (split_once c s) as [[l' r']|]; [done|]. by apply IH.
Qed.

Lemma after_first_hash_app : ∀ l r,
  contains "#" l = false →
  after_first_hash (String.append l r) = after_first_hash r.
Proof.
  induction l as [|d l IH]; intros r Hl; [done|].
  cbn [contains] in Hl. rewrite append_cons. cbn [after_first_hash].
  rewrite Ascii.eqb_sym. destruct (Ascii.eqb "#" d); [done|]. by apply IH.
Qed.

Lemma after_first_hash_none : ∀ s,
  contains "#" s = false → after_first_hash s = EmptyString.
Proof.
  induction s as [|d s IH]; intros Hs; [done|].
  cbn [contains] in Hs. cbn [after_first_hash].
  rewrite Ascii.eqb_sym. destruct (Ascii.eqb "#" d); [done|]. by apply IH.
Qed.

Lemma after_first_hash_split s :
  after_first_hash s
  = match split_once "#" s with Some (_, f) => f | None => EmptyString end.
Proof.
  destruct (split_once "#" s) as [[l r]|] eqn:E.
  - apply split_once_Some in E as [-> Hl].
    by rewrite after_first_hash_app.
  - by apply after_first_hash_none, split_once_None.
Qed.

Lemma forallb_contains p c : ∀ s,
  forallb p s = true → p c = false → contains c s = false.
Proof.
  induction s as [|d s IH]; intros Hs Hp; [done|].
  cbn [forallb] in Hs. cbn [contains].
  apply andb_prop in Hs as [Hd Hs].
  destruct (Ascii.eqb_spec c d) as [->|_]; [congruence | by apply IH].
Qed.

Lemma span_netloc_spec : ∀ s n r,
  span_netloc s = (n, r) →
  s = String.append n r ∧ contains "#" n = false.
Proof.
  induction s as [|d s IH]; intros n r Hs; cbn [span_netloc] in Hs;
    [by simplify_eq|].
  destruct (contains d "/?#") eqn:Hd; [by simplify_eq|].
  destruct (span_netloc s) as [n' r'] eqn:E. simplify_eq.
  destruct (IH n' r eq_refl) as [-> Hn].
  rewrite append_cons. cbn [contains]. split; [done|].
  destruct (Ascii.eqb_spec "#" d) as [<-|_]; [done | exact Hn].
Qed.

Lemma split_rest_fragment sch u r :
  split_rest sch u = inr r → fragment r = after_first_hash u.
Proof.
  unfold split_rest. intros Hr.
  assert (∃ n u', (if starts_with_slashes u then _splitnetloc2 u
                   else (EmptyString, u)) = (n, u')
                  ∧ after_first_hash u = after_first_hash u') as (n & u' & Hn & ->).
  { destruct (starts_with_slashes u) eqn:Hs; [|by eauto].
    destruct u as [|a [|b u]]; try done. simpl in Hs.
    apply andb_prop in Hs as [Ha Hb].
    apply Ascii.eqb_eq in Ha as ->. apply Ascii.eqb_eq in Hb as ->.
    simpl. destruct (span_netloc u) as [n u'] eqn:E.
    exists n, u'. split; [done|].
    apply span_netloc_spec in E as [-> Hn].
    by rewrite after_first_hash_app. }
  rewrite Hn in Hr.
  destruct (_ || _); [done|].
  rewrite after_first_hash_split.
  destruct (split_once "#" u') as [[p f]|];
    [destruct (split_once "?" p) as [[? ?]|]
    |destruct (split_once "?" u') as [[? ?]|]]; by simplify_eq.
Qed.

Lemma urlsplit_fragment url r :
  urlsplit url = inr r → fragment r = after_first_hash url.
Proof.
  unfold urlsplit. destruct (split_once ":" url) as [[pre rest]|] eqn:E;
    [|apply split_rest_fragment].
  destruct pre as [|c pre]; [apply split_rest_fragment|].
  apply split_once_Some in E as [-> _].
  assert (∀ sch, contains "#" (String c pre) = false →
                 split_rest sch rest = inr r →
                 fragment r
                 = after_first_hash (String.append (String c pre) (String ":" rest)))
    as Hcut.
  { intros sch Hc Hr. rewrite after_first_hash_app by done.
    by apply split_rest_fragment in Hr. }
  destruct (String.eqb_spec (String c pre) "http") as [Heq|_].
  { apply Hcut. by rewrite Heq. }
  destruct (forallb _ (String c pre)) eqn:Hall; [|apply split_rest_fragment].
  destruct (_ || _); [|apply split_rest_fragment].
  apply Hcut. by apply (forallb_contains _ _ _ Hall).
Qed.

Lemma urlparse_fragment_spec uri self :
  match urlparse_fragment uri self with
  | (inr f, self') => parses uri ∧ f = after_first_hash uri ∧ self' = self
  | (inl _, _) => ¬ parses uri
  end.
Proof.
  unfold urlparse_fragment, mbind, M_bind, lift, mret, M_ret, parses.
  destruct (urlparse uri) as [e|r] eqn:E.
  - intros [r' ?]. congruence.
  - split; [by eexists|]. split; [|done]. by apply urlsplit_fragment.
Qed.
End fragment.

(** ** Graph operations as deltas *)

Section deltas.
Implicit Types (g : pgv.AGraph) (d : delta).

Lemma apply_delta_dnil g : apply_delta dnil g = g.
Proof. destruct g. unfold apply_delta. simpl. by rewrite app_nil_r. Qed.

Lemma apply_delta_dapp d1 d2 g :
  apply_delta (dapp d1 d2) g = apply_delta d2 (apply_delta d1 g).
Proof.
  unfold apply_delta, dapp. simpl.
  by rewrite !creates_app, !inserts_app, (assoc_L (++)).
Qed.

Lemma strict_apply_delta d g : pgv.strict (apply_delta d g) = pgv.strict g.
Proof. done. Qed.

Lemma update_attr_inserts n kw : ∀ a,
  pgv.update_attr n kw a = inserts (kw_writes n kw) a.
Proof. induction kw as [|kv kw IH]; intros a; [done|]. apply IH. Qed.

Lemma add_node_delta n kw g :
  pgv.add_node n kw g = apply_delta (node_delta n kw) g.
Proof.
  destruct g. unfold pgv.add_node, apply_delta, pgv.upd_attr, pgv.upd_nodes.
  simpl. by rewrite update_attr_inserts, app_nil_r.
Qed.

Lemma add_edge_delta u v g :
  pgv.strict g = false → pgv.add_edge u v g = apply_delta (edge_delta u v) g.
Proof.
  intros Hs. unfold pgv.add_edge.
  set (g1 := if decide (u ∈ pgv.nodes g) then g else pgv.add_node u [] g).
  assert (g1 = apply_delta (node_delta u []) g) as Hg1.
  { unfold g1. case_decide; [|apply add_node_delta].
    destruct g. unfold apply_delta, creates. simpl in *.
    by rewrite find_or_create_elem, app_nil_r. }
  set (g2 := if decide (v ∈ pgv.nodes g1) then g1 else pgv.add_node v [] g1).
  assert (g2 = apply_delta (node_delta v []) g1) as Hg2.
  { unfold g2. case_decide; [|apply add_node_delta].
    destruct g1. unfold apply_delta, creates. simpl in *.
    by rewrite find_or_create_elem, app_nil_r. }
  assert (pgv.strict g2 = false) as -> by (by rewrite Hg2, Hg1).
  simpl. rewrite Hg2, Hg1. destruct g.
  unfold apply_delta, pgv.upd_edges. simpl. by rewrite !app_nil_r.
Qed.

Lemma subgraph_add_node_delta name n kw g :
  pgv.subgraph_add_node name n kw g
  = apply_delta (subgraph_node_delta name n kw) g.
Proof.
  unfold pgv.subgraph_add_node. rewrite add_node_delta. destruct g.
  unfold apply_delta, pgv.upd_subgraph_nodes. simpl. by rewrite !app_nil_r.
Qed.

Lemma add_subgraph_delta name g :
  pgv.add_subgraph name g = apply_delta (subgraph_delta name []) g.
Proof.
  destruct g. unfold pgv.add_subgraph, apply_delta, pgv.upd_subgraphs.
  simpl. by rewrite app_nil_r.
Qed.

Lemma subgraph_set_graph_attr_delta name k v ga g :
  pgv.subgraph_set_graph_attr name k v (apply_delta (subgraph_delta name ga) g)
  = apply_delta (subgraph_delta name (ga ++ [(k, v)])) g.
Proof.
  unfold pgv.subgraph_set_graph_attr, apply_delta, pgv.upd_subgraph_attr.
  simpl. unfold kw_writes. by rewrite fmap_app, inserts_app.
Qed.

Lemma attr_add_edge u v g : pgv.attr (pgv.add_edge u v g) = pgv.attr g.
Proof.
  unfold pgv.add_edge. repeat case_decide; destruct (_ && _); done.
Qed.

Lemma apply_delta_dconcat_cons d ds g :
  apply_delta (dconcat (d :: ds)) g = apply_delta (dconcat ds) (apply_delta d g).
Proof. apply apply_delta_dapp. Qed.
End deltas.

(** ** The methods as deltas *)

Lemma with_dot_graph_id self : with_dot_graph (_dot_graph self) self = self.
Proof. by destruct self. Qed.

Lemma dot_graph_with_dot_graph g self : _dot_graph (with_dot_graph g self) = g.
Proof. done. Qed.

Lemma with_dot_graph_twice g1 g2 self :
  with_dot_graph g2 (with_dot_graph g1 self) = with_dot_graph g2 self.
Proof. done. Qed.

Ltac unfold_monad :=
  unfold mbind, M_bind, mret, M_ret, raise, lift, on_dot_graph, log,
    get_rdf_graph, get_root_graph_uri_attr, set_dot_graph, set_rdf_graph,
    set_root_graph_uri, set_filename in *.

(** What a loop does when each iteration either applies a delta or raises. *)
Lemma for_delta {A} (P : A → Prop) (body : A → M unit) (δ : A → delta) :
  (∀ x self, pgv.strict (_dot_graph self) = false →
     match body x self with
     | (inr _, self') =>
         P x ∧ self' = with_dot_graph (apply_delta (δ x) (_dot_graph self)) self
     | (inl _, _) => ¬ P x
     end) →
  ∀ xs self, pgv.strict (_dot_graph self) = false →
    match for_ xs body self with
    | (inr _, self') =>
        Forall P xs
        ∧ self' = with_dot_graph
                    (apply_delta (dconcat (δ <$> xs)) (_dot_graph self)) self
    | (inl _, _) => ¬ Forall P xs
    end.
Proof.
  intros Hbody. induction xs as [|x xs IH]; intros self Hs.
  - simpl. split; [done|]. by rewrite apply_delta_dnil, with_dot_graph_id.
  - cbn [for_]. unfold mbind, M_bind.
    specialize (Hbody x self Hs).
    destruct (body x self) as [[e|[]] self1].
    + intros HF. by inversion HF.
    + destruct Hbody as [HP ->].
      specialize (IH (with_dot_graph (apply_delta (δ x) (_dot_graph self)) self) Hs).
      destruct (for_ xs body _) as [[e|[]] self2].
      * intros HF. by inversion HF.
      * destruct IH as [HF ->]. split; [by constructor|].
        rewrite fmap_cons, apply_delta_dconcat_cons. done.
Qed.

Lemma label_expr_spec declared uri self :
  match (match declared with
         | Some l => mret l
         | None => urlparse_fragment uri
         end : M string) self with
  | (inr f, self') =>
      (declared = None → parses uri)
      ∧ f = resolved_label declared uri ∧ self' = self
  | (inl _, _) => ¬ (declared = None → parses uri)
  end.
Proof.
  destruct declared as [l|]; [by unfold_monad|].
  pose proof (urlparse_fragment_spec uri self) as Hf.
  destruct (urlparse_fragment uri self) as [[e|f] self'].
  - intros Hp. by apply Hf, Hp.
  - destruct Hf as (? & ? & ?). done.
Qed.

Lemma inner_edge_body_step r self :
  match inner_edge_body r self with
  | (inr _, self') =>
      inner_row_ok r
      ∧ self' = with_dot_graph (inner_step r (_dot_graph self)) self
  | (inl _, _) => ¬ inner_row_ok r
  end.
Proof.
  unfold inner_edge_body, inner_row_ok, inner_step.
  destruct r as [s sl t tl]. simpl.
  unfold mbind at 1. unfold M_bind at 1.
  pose proof (label_expr_spec sl s self) as Hsrc. revert Hsrc.
  destruct (match sl with
            | Some l => mret l
            | None => urlparse_fragment s
            end self) as [[e|f] self1]; intros Hsrc; [tauto|].
  destruct Hsrc as (Hsrc & -> & ->).
  unfold mbind at 1. unfold M_bind at 1. unfold on_dot_graph at 1.
  unfold mbind at 1. unfold M_bind at 1.
  set (self1 := mkCWLViewer _ _ _ _ _).
  pose proof (label_expr_spec tl t self1) as Htgt. revert Htgt.
  destruct (match tl with
            | Some l => mret l
            | None => urlparse_fragment t
            end self1) as [[e|f] self2]; intros Htgt; [tauto|].
  destruct Htgt as (Htgt & -> & ->). done.
Qed.

Lemma inner_step_delta r g :
  pgv.strict g = false → inner_step r g = apply_delta (inner_row_delta r) g.
Proof.
  intros Hs. unfold inner_step, inner_row_delta.
  by rewrite !apply_delta_dapp, <- add_edge_delta, <- !add_node_delta.
Qed.

Lemma inner_edge_body_spec r self :
  pgv.strict (_dot_graph self) = false →
  match inner_edge_body r self with
  | (inr _, self') =>
      inner_row_ok r
      ∧ self' = with_dot_graph
                  (apply_delta (inner_row_delta r) (_dot_graph self)) self
  | (inl _, _) => ¬ inner_row_ok r
  end.
Proof.
  intros Hs. rewrite <- inner_step_delta by done. apply inner_edge_body_step.
Qed.

Lemma input_edge_body_step r self :
  match input_edge_body r self with
  | (inr _, self') =>
      parses (InputRow.input r)
      ∧ self' = with_dot_graph (input_step r (_dot_graph self)) self
  | (inl _, _) => ¬ parses (InputRow.input r)
  end.
Proof.
  unfold input_edge_body, input_step.
  unfold mbind at 1. unfold M_bind at 1.
  pose proof (urlparse_fragment_spec (InputRow.input r) self) as Hf.
  destruct (urlparse_fragment (InputRow.input r) self) as [[e|f] self1]; [done|].
  destruct Hf as (Hp & -> & ->). done.
Qed.

Lemma input_step_delta r g :
  pgv.strict g = false → input_step r g = apply_delta (input_row_delta r) g.
Proof.
  intros Hs. unfold input_step, input_row_delta.
  by rewrite apply_delta_dapp, <- add_edge_delta, <- subgraph_add_node_delta.
Qed.

Lemma input_edge_body_spec r self :
  pgv.strict (_dot_graph self) = false →
  match input_edge_body r self with
  | (inr _, self') =>
      parses (InputRow.input r)
      ∧ self' = with_dot_graph
                  (apply_delta (input_row_delta r) (_dot_graph self)) self
  | (inl _, _) => ¬ parses (InputRow.input r)
  end.
Proof.
  intros Hs. rewrite <- input_step_delta by done. apply input_edge_body_step.
Qed.

Lemma output_edge_body_step r self :
  match output_edge_body r self with
  | (inr _, self') =>
      parses (OutputRow.output r)
      ∧ self' = with_dot_graph (output_step r (_dot_graph self)) self
  | (inl _, _) => ¬ parses (OutputRow.output r)
  end.
Proof.
  unfold output_edge_body, output_step.
  unfold mbind at 1. unfold M_bind at 1.
  pose proof (urlparse_fragment_spec (OutputRow.output r) self) as Hf.
  destruct (urlparse_fragment (OutputRow.output r) self) as [[e|f] self1]; [done|].
  destruct Hf as (Hp & -> & ->). done.
Qed.

Lemma output_step_delta r g :
  pgv.strict g = false → output_step r g = apply_delta (output_row_delta r) g.
Proof.
  intros Hs. unfold output_step, output_row_delta.
  by rewrite apply_delta_dapp, <- add_edge_delta, <- subgraph_add_node_delta.
Qed.

Lemma output_edge_body_spec r self :
  pgv.strict (_dot_graph self) = false →
  match output_edge_body r self with
  | (inr _, self') =>
      parses (OutputRow.output r)
      ∧ self' = with_dot_graph
                  (apply_delta (output_row_delta r) (_dot_graph self)) self
  | (inl _, _) => ¬ parses (OutputRow.output r)
  end.
Proof.
  intros Hs. rewrite <- output_step_delta by done. apply output_edge_body_step.
Qed.

Lemma _set_inner_edges_spec self rdf root :
  _rdf_graph self = Some rdf → _root_graph_uri self = Some root →
  pgv.strict (_dot_graph self) = false →
  match _set_inner_edges self with
  | (inr _, self') =>
      inner_rows_ok (inner_edge_rows rdf root)
      ∧ self' = with_dot_graph
                  (apply_delta (inner_delta (inner_edge_rows rdf root))
                               (_dot_graph self))
                  (with_call (rdflib_query get_inner_edges (Some root)) self)
  | (inl _, _) => ¬ inner_rows_ok (inner_edge_rows rdf root)
  end.
Proof.
  intros Hrdf Hroot Hs. unfold _set_inner_edges. unfold_monad.
  rewrite Hrdf, Hroot.
  apply (for_delta inner_row_ok inner_edge_body inner_row_delta
           inner_edge_body_spec (inner_edge_rows rdf root)
           (with_call (rdflib_query get_inner_edges (Some root)) self) Hs).
Qed.

Lemma _set_input_edges_spec self rdf root :
  _rdf_graph self = Some rdf → _root_graph_uri self = Some root →
  pgv.strict (_dot_graph self) = false →
  match _set_input_edges self with
  | (inr _, self') =>
      input_rows_ok (input_edge_rows rdf root)
      ∧ self' = with_dot_graph
                  (apply_delta (input_delta (input_edge_rows rdf root))
                               (_dot_graph self))
                  (with_call (rdflib_query get_input_edges (Some root)) self)
  | (inl _, _) => ¬ input_rows_ok (input_edge_rows rdf root)
  end.
Proof.
  intros Hrdf Hroot Hs. unfold _set_input_edges. unfold_monad.
  cbn -[for_ pgv.add_subgraph pgv.subgraph_set_graph_attr].
  rewrite Hrdf, Hroot.
  rewrite add_subgraph_delta, !subgraph_set_graph_attr_delta.
  cbn [app].
  remember (apply_delta (subgraph_delta _ _) _) as g1 eqn:Hg1.
  pose proof (for_delta _ input_edge_body input_row_delta
           input_edge_body_spec (input_edge_rows rdf root)
           (with_call (rdflib_query get_input_edges (Some root))
                      (with_dot_graph g1 self))) as Hfor.
  unfold with_call, with_dot_graph in Hfor. simpl in Hfor.
  rewrite Hrdf, Hroot in Hfor. rewrite Hg1 in Hfor at 1.
  specialize (Hfor Hs). cbn -[for_].
  destruct (for_ _ _ _) as [[e|[]] self']; [done|].
  destruct Hfor as [HF ->]. split; [done|].
  unfold input_delta, with_dot_graph, with_call.
  rewrite apply_delta_dapp, Hrdf, Hroot, Hg1. done.
Qed.

Lemma _set_output_edges_spec self rdf root :
  _rdf_graph self = Some rdf → _root_graph_uri self = Some root →
  pgv.strict (_dot_graph self) = false →
  match _set_output_edges self with
  | (inr _, self') =>
      output_rows_ok (output_edge_rows rdf root)
      ∧ self' = with_dot_graph
                  (apply_delta (output_delta (output_edge_rows rdf root))
                               (_dot_graph self))
                  (with_call (rdflib_query get_output_edges (Some root)) self)
  | (inl _, _) => ¬ output_rows_ok (output_edge_rows rdf root)
  end.
Proof.
  intros Hrdf Hroot Hs. unfold _set_output_edges. unfold_monad.
  cbn -[for_ pgv.add_subgraph pgv.subgraph_set_graph_attr].
  rewrite Hrdf, Hroot.
  rewrite add_subgraph_delta, !subgraph_set_graph_attr_delta.
  cbn [app].
  remember (apply_delta (subgraph_delta _ _) _) as g1 eqn:Hg1.
  pose proof (for_delta _ output_edge_body output_row_delta
           output_edge_body_spec (output_edge_rows rdf root)
           (with_call (rdflib_query get_output_edges (Some root))
                      (with_dot_graph g1 self))) as Hfor.
  unfold with_call, with_dot_graph in Hfor. simpl in Hfor.
  rewrite Hrdf, Hroot in Hfor. rewrite Hg1 in Hfor at 1.
  specialize (Hfor Hs). cbn -[for_].
  destruct (for_ _ _ _) as [[e|[]] self']; [done|].
  destruct Hfor as [HF ->]. split; [done|].
  unfold output_delta, with_dot_graph, with_call.
  rewrite apply_delta_dapp, Hrdf, Hroot, Hg1. done.
Qed.

(** ** The collaborator calls of each method *)

Lemma for_calls {A} (body : A → M unit) :
  (∀ x self, calls (body x self).2 = calls self) →
  ∀ xs self, calls (for_ xs body self).2 = calls self.
Proof.
  intros Hbody. induction xs as [|x xs IH]; intros self; [done|].
  cbn [for_]. unfold mbind, M_bind.
  specialize (Hbody x self). destruct (body x self) as [[e|[]] self1]; [done|].
  rewrite IH. done.
Qed.

Lemma urlparse_fragment_state uri self : (urlparse_fragment uri self).2 = self.
Proof.
  unfold urlparse_fragment. unfold_monad. by destruct (urllib.urlparse uri).
Qed.

Lemma inner_edge_body_calls r self : calls (inner_edge_body r self).2 = calls self.
Proof.
  unfold inner_edge_body. unfold mbind at 1. unfold M_bind at 1.
  assert (∀ d u s, ((match d with
                     | Some l => mret l
                     | None => urlparse_fragment u
                     end : M string) s).2 = s) as Hlab.
  { intros [l|] u s; [done | apply urlparse_fragment_state]. }
  pose proof (Hlab (source_label r) (source_step r) self) as H1. revert H1.
  destruct (match source_label r with
            | Some l => mret l
            | None => urlparse_fragment (source_step r)
            end self) as [[e|f] self1]; simpl; intros ->; [done|].
  unfold mbind at 1. unfold M_bind at 1. unfold on_dot_graph at 1.
  unfold mbind at 1. unfold M_bind at 1.
  set (self1 := mkCWLViewer _ _ _ _ _).
  pose proof (Hlab (target_label r) (target_step r) self1) as H2. revert H2.
  destruct (match target_label r with
            | Some l => mret l
            | None => urlparse_fragment (target_step r)
            end self1) as [[e|f'] self2]; simpl; intros ->; done.
Qed.

Lemma input_edge_body_calls r self : calls (input_edge_body r self).2 = calls self.
Proof.
  unfold input_edge_body. unfold mbind at 1. unfold M_bind at 1.
  pose proof (urlparse_fragment_state (InputRow.input r) self) as H1. revert H1.
  destruct (urlparse_fragment (InputRow.input r) self) as [[e|f] self1];
    simpl; intros ->; done.
Qed.

Lemma output_edge_body_calls r self : calls (output_edge_body r self).2 = calls self.
Proof.
  unfold output_edge_body. unfold mbind at 1. unfold M_bind at 1.
  pose proof (urlparse_fragment_state (OutputRow.output r) self) as H1. revert H1.
  destruct (urlparse_fragment (OutputRow.output r) self) as [[e|f] self1];
    simpl; intros ->; done.
Qed.

Lemma _set_inner_edges_calls self :
  calls (_set_inner_edges self).2 = extractor_calls get_inner_edges self.
Proof.
  unfold _set_inner_edges, extractor_calls. unfold_monad.
  destruct (_rdf_graph self) as [rdf|]; [|done].
  destruct (_root_graph_uri self) as [root|]; [|done].
  by rewrite (for_calls _ inner_edge_body_calls).
Qed.

Lemma _set_input_edges_calls self :
  calls (_set_input_edges self).2 = extractor_calls get_input_edges self.
Proof.
  unfold _set_input_edges, extractor_calls. unfold_monad.
  cbn -[for_ pgv.add_subgraph pgv.subgraph_set_graph_attr].
  destruct (_rdf_graph self) as [rdf|]; [|done].
  cbn -[for_ pgv.add_subgraph pgv.subgraph_set_graph_attr].
  destruct (_root_graph_uri self) as [root|]; [|done].
  cbn -[for_ pgv.add_subgraph pgv.subgraph_set_graph_attr].
  by rewrite (for_calls _ input_edge_body_calls).
Qed.

Lemma _set_output_edges_calls self :
  calls (_set_output_edges self).2 = extractor_calls get_output_edges self.
Proof.
  unfold _set_output_edges, extractor_calls. unfold_monad.
  cbn -[for_ pgv.add_subgraph pgv.subgraph_set_graph_attr].
  destruct (_rdf_graph self) as [rdf|]; [|done].
  cbn -[for_ pgv.add_subgraph pgv.subgraph_set_graph_attr].
  destruct (_root_graph_uri self) as [root|]; [|done].
  cbn -[for_ pgv.add_subgraph pgv.subgraph_set_graph_attr].
  by rewrite (for_calls _ output_edge_body_calls).
Qed.

(** ** The constructor *)

Section constructor.
Variable print_rdf : string -> string.
Variable parse_n3 : string -> exn + RdfGraph.

Let init := __init__ print_rdf parse_n3.

(** [__init__] up to the three extractor calls. *)
Lemma init_run filename self0 :
  init filename self0
  = let cs := calls self0 ++ [cwltool_print_rdf filename;
                              rdflib_parse (print_rdf filename)] in
    match parse_n3 (print_rdf filename) with
    | inl e =>
        (inl e, mkCWLViewer filename _init_dot_graph (_rdf_graph self0)
                            (_root_graph_uri self0) cs)
    | inr rdf =>
        match root_rows rdf with
        | [] =>
            (inl IndexError,
             mkCWLViewer filename _init_dot_graph (Some rdf)
               (_root_graph_uri self0) (cs ++ [rdflib_query get_root None]))
        | r :: _ =>
            (_set_inner_edges;; _set_input_edges;; _set_output_edges)
              (mkCWLViewer filename _init_dot_graph (Some rdf)
                 (Some (workflow r)) (cs ++ [rdflib_query get_root None]))
        end
    end.
Proof.
  unfold init, __init__, _load_cwl_graph, _cwl2rdf, get_root_graph_uri.
  unfold_monad.
  cbn -[_set_inner_edges _set_input_edges _set_output_edges _init_dot_graph].
  rewrite <- (assoc_L (++)). cbn [app].
  destruct (parse_n3 (print_rdf filename)) as [e|rdf]; [done|].
  cbn -[_set_inner_edges _set_input_edges _set_output_edges _init_dot_graph].
  destruct (root_rows rdf) as [|r rest]; done.
Qed.

Lemma strict_init_dot_graph : pgv.strict _init_dot_graph = false.
Proof. done. Qed.

(** A construction that returns. *)
Lemma init_returns filename self0 self' :
  init filename self0 = (inr tt, self') →
  ∃ rdf r rest,
    parse_n3 (print_rdf filename) = inr rdf
    ∧ root_rows rdf = r :: rest
    ∧ rows_ok rdf (workflow r)
    ∧ self' = mkCWLViewer filename (built_graph rdf (workflow r)) (Some rdf)
                (Some (workflow r))
                (calls self0
                 ++ pipeline_calls filename (print_rdf filename) (workflow r)).
Proof.
  rewrite init_run. cbv zeta.
  destruct (parse_n3 (print_rdf filename)) as [e|rdf]; [done|].
  destruct (root_rows rdf) as [|r rest] eqn:Hrows; [done|].
  set (self1 := mkCWLViewer _ _ _ _ _).
  unfold mbind at 1. unfold M_bind at 1.
  pose proof (_set_inner_edges_spec self1 rdf (workflow r) eq_refl eq_refl
                eq_refl) as H1.
  destruct (_set_inner_edges self1) as [[e|[]] self2]; [done|].
  destruct H1 as [Hok1 ->].
  unfold mbind at 1. unfold M_bind at 1.
  set (self2 := with_dot_graph _ _).
  pose proof (_set_input_edges_spec self2 rdf (workflow r) eq_refl eq_refl
                eq_refl) as H2.
  destruct (_set_input_edges self2) as [[e|[]] self3]; [done|].
  destruct H2 as [Hok2 ->].
  set (self3 := with_dot_graph _ _).
  pose proof (_set_output_edges_spec self3 rdf (workflow r) eq_refl eq_refl
                eq_refl) as H3.
  destruct (_set_output_edges self3) as [[e|[]] self4]; [done|].
  destruct H3 as [Hok3 ->]. intros [= <-].
  exists rdf, r, rest. repeat split; try done.
  unfold with_dot_graph, with_call, built_graph, pipeline_calls. simpl.
  by rewrite <- !(assoc_L (++)).
Qed.

(** A construction returns when the text parses, the root query has a
    row, and [urlparse] accepts the URIs whose fragment is needed. *)
Lemma init_total filename self0 rdf r rest :
  parse_n3 (print_rdf filename) = inr rdf →
  root_rows rdf = r :: rest →
  rows_ok rdf (workflow r) →
  ∃ self', init filename self0 = (inr tt, self').
Proof.
  intros Hp Hrows (Hok1 & Hok2 & Hok3).
  rewrite init_run. cbv zeta. rewrite Hp, Hrows.
  set (self1 := mkCWLViewer _ _ _ _ _).
  unfold mbind at 1. unfold M_bind at 1.
  pose proof (_set_inner_edges_spec self1 rdf (workflow r) eq_refl eq_refl
                eq_refl) as H1.
  destruct (_set_inner_edges self1) as [[e|[]] self2]; [done|].
  destruct H1 as [_ ->].
  unfold mbind at 1. unfold M_bind at 1.
  set (self2 := with_dot_graph _ _).
  pose proof (_set_input_edges_spec self2 rdf (workflow r) eq_refl eq_refl
                eq_refl) as H2.
  destruct (_set_input_edges self2) as [[e|[]] self3]; [done|].
  destruct H2 as [_ ->].
  set (self3 := with_dot_graph _ _).
  pose proof (_set_output_edges_spec self3 rdf (workflow r) eq_refl eq_refl
                eq_refl) as H3.
  destruct (_set_output_edges self3) as [[e|[]] self4]; [done|].
  by eexists.
Qed.

(** Whatever the outcome, the calls made are an initial part of the
    pipeline. *)
Lemma init_calls_prefix filename self0 :
  ∃ root,
    (∀ rdf r rest, parse_n3 (print_rdf filename) = inr rdf →
                   root_rows rdf = r :: rest → root = workflow r)
    ∧ calls (init filename self0).2
      `prefix_of` calls self0
                  ++ pipeline_calls filename (print_rdf filename) root.
Proof.
  rewrite init_run. cbv zeta.
  destruct (parse_n3 (print_rdf filename)) as [e|rdf].
  { exists "". split; [done|]. simpl. apply prefix_app, prefix_cons, prefix_cons.
    apply prefix_nil. }
  destruct (root_rows rdf) as [|r rest] eqn:Hrows.
  { exists "". split; [intros ??? [= <-]; congruence|].
    simpl. rewrite <- (assoc_L (++)).
    apply prefix_app. do 3 apply prefix_cons. apply prefix_nil. }
  exists (workflow r). split; [intros ??? [= <-]; congruence|].
  set (self1 := mkCWLViewer _ _ _ _ _).
  unfold mbind at 1. unfold M_bind at 1.
  pose proof (_set_inner_edges_calls self1) as H1.
  pose proof (_set_inner_edges_spec self1 rdf (workflow r) eq_refl eq_refl
                eq_refl) as S1.
  destruct (_set_inner_edges self1) as [[e|[]] self2].
  { simpl in *. rewrite H1. unfold extractor_calls, pipeline_calls. simpl.
    rewrite <- !(assoc_L (++)). apply prefix_app. simpl.
    do 4 apply prefix_cons. apply prefix_nil. }
  destruct S1 as [_ ->]. clear H1.
  unfold mbind at 1. unfold M_bind at 1.
  set (self2 := with_dot_graph _ _).
  pose proof (_set_input_edges_calls self2) as H2.
  pose proof (_set_input_edges_spec self2 rdf (workflow r) eq_refl eq_refl
                eq_refl) as S2.
  destruct (_set_input_edges self2) as [[e|[]] self3].
  { simpl in *. rewrite H2. unfold extractor_calls, pipeline_calls. simpl.
    rewrite <- !(assoc_L (++)). apply prefix_app. simpl.
    do 5 apply prefix_cons. apply prefix_nil. }
  destruct S2 as [_ ->]. clear H2.
  set (self3 := with_dot_graph _ _).
  rewrite (_set_output_edges_calls self3).
  unfold extractor_calls, pipeline_calls. simpl.
  rewrite <- !(assoc_L (++)). done.
Qed.
End constructor.

(** ** Attributes after [add_node] *)

Lemma node_get_add_node_ne n kw g m k :
  m ≠ n → pgv.node_get (pgv.add_node n kw g) m k = pgv.node_get g m k.
Proof.
  intros Hne. unfold pgv.node_get, pgv.add_node, pgv.upd_attr. simpl.
  rewrite update_attr_inserts. apply lookup_inserts_notin.
  intros v Hv. unfold kw_writes in Hv.
  apply list_elem_of_fmap in Hv as (kv & [= -> _] & _). done.
Qed.

Lemma node_get_add_node_step_label n l g :
  pgv.node_get (pgv.add_node n (step_kw l) g) n "label" = Some l.
Proof.
  unfold pgv.node_get, pgv.add_node, pgv.upd_attr, pgv.update_attr. simpl.
  apply lookup_insert_eq.
Qed.

Lemma node_get_add_node_boundary n l g :
  pgv.node_get (pgv.add_node n (boundary_kw l) g) n "fillcolor" = Some "#94DDF4"
  ∧ pgv.node_get (pgv.add_node n (boundary_kw l) g) n "style" = Some "filled"
  ∧ pgv.node_get (pgv.add_node n (boundary_kw l) g) n "label" = Some l.
Proof.
  unfold pgv.node_get, pgv.add_node, pgv.upd_attr, pgv.update_attr. simpl.
  split; [|split].
  - do 2 (rewrite lookup_insert_ne by done). apply lookup_insert_eq.
  - rewrite lookup_insert_ne by done. apply lookup_insert_eq.
  - apply lookup_insert_eq.
Qed.

Lemma node_get_add_edge u v g n k :
  pgv.node_get (pgv.add_edge u v g) n k = pgv.node_get g n k.
Proof. unfold pgv.node_get. by rewrite attr_add_edge. Qed.

Lemma node_get_subgraph_add_node name n kw g m k :
  pgv.node_get (pgv.subgraph_add_node name n kw g) m k
  = pgv.node_get (pgv.add_node n kw g) m k.
Proof. done. Qed.

Lemma parses_fragment uri :
  parses uri →
  ∃ p, urllib.urlparse uri = inr p ∧ urllib.fragment p = after_first_hash uri.
Proof. intros [p Hp]. exists p. split; [done|]. by apply urlsplit_fragment. Qed.

Lemma carries_resolved_label g uri declared :
  (declared = None → parses uri) →
  pgv.node_get g uri "label" = Some (resolved_label declared uri) →
  carries_label g uri declared.
Proof.
  intros Hp Hl. destruct declared as [l|]; [done|]. simpl in *.
  destruct (parses_fragment uri (Hp eq_refl)) as (p & Hpar & Hfr).
  exists p. by rewrite Hfr.
Qed.

Lemma inner_edge_body_labels r self self' :
inner_edge_body r self = (inr tt, self') →
pgv.node_get (_dot_graph self') (target_step r) "label"
= Some (resolved_label (target_label r) (target_step r))
∧ (source_step r ≠ target_step r →
   pgv.node_get (_dot_graph self') (source_step r) "label"
   = Some (resolved_label (source_label r) (source_step r))).
Proof.
intros Hrun. pose proof (inner_edge_body_step r self) as Hstep.
rewrite Hrun in Hstep. destruct Hstep as [_ ->].
rewrite dot_graph_with_dot_graph. unfold inner_step. split.
- rewrite node_get_add_edge. apply node_get_add_node_step_label.
- intros Hne. rewrite node_get_add_edge, node_get_add_node_ne by done.
  apply node_get_add_node_step_label.
Qed.

(** C1 (as amended). The loop body of [_set_inner_edges] returns on every
    row whose unlabelled steps have a URI that [urlparse] accepts. When it
    has run on a row, the target node carries the declared label whenever
    the query bound one -- the empty string included -- and the fragment of
    its URI otherwise; so does the source node, unless source and target
    are the same step, in which case the label written last, the target's,
    is the one the node keeps. *)
Theorem C1_inner_edge_labels (r : InnerEdgeRow) (self : CWLViewer) :
  (inner_row_ok r → ∃ self', inner_edge_body r self = (inr tt, self'))
  ∧ ∀ self',
      inner_edge_body r self = (inr tt, self') →
      carries_label (_dot_graph self') (target_step r) (target_label r)
      ∧ (source_step r ≠ target_step r →
         carries_label (_dot_graph self') (source_step r) (source_label r)).
Proof.
  pose proof (inner_edge_body_step r self) as Hstep. split.
  { intros Hok. destruct (inner_edge_body r self) as [[e|[]] self'];
      [done | by eexists]. }
  intros self' Hrun. rewrite Hrun in Hstep. destruct Hstep as [[Hsrc Htgt] _].
  destruct (inner_edge_body_labels r self self' Hrun) as [Ht Hs]. split.
  - by apply carries_resolved_label.
  - intros Hne. apply carries_resolved_label; [done | by apply Hs].
Qed.

Lemma C1_inner_edge_labels_witness :
  let r := mkInnerEdgeRow "http://ex.org/wf#step1" (Some "Step A")
                          "http://ex.org/wf#step2" None in
  let self := with_dot_graph _init_dot_graph object_new in
  ∃ self',
    inner_edge_body r self = (inr tt, self')
    ∧ pgv.node_get (_dot_graph self') "http://ex.org/wf#step1" "label"
      = Some "Step A"
    ∧ pgv.node_get (_dot_graph self') "http://ex.org/wf#step2" "label"
      = Some "step2"
    ∧ carries_label (_dot_graph self') (target_step r) (target_label r)
    ∧ (source_step r ≠ target_step r →
       carries_label (_dot_graph self') (source_step r) (source_label r)).
Proof.
  intros r self. exists (inner_edge_body r self).2.
  split; [reflexivity|]. split; [reflexivity|]. split; [reflexivity|].
  apply (proj2 (C1_inner_edge_labels r self)). reflexivity.
Defined.

(** C1 as stated fails: a row whose declared source label is the empty
    string gives the node the empty label, where the claim asks for the
    fragment ["step1"]. *)
Lemma C1_empty_label_counterexample :
  let r := mkInnerEdgeRow "http://ex.org/wf#step1" (Some "")
                          "http://ex.org/wf#step2" None in
  let self := with_dot_graph _init_dot_graph object_new in
  ∃ self',
    inner_edge_body r self = (inr tt, self')
    ∧ pgv.node_get (_dot_graph self') (source_step r) "label" = Some ""
    ∧ claimed_label (source_label r) (source_step r) = "step1"
    ∧ pgv.node_get (_dot_graph self') (source_step r) "label"
      ≠ Some (claimed_label (source_label r) (source_step r)).
Proof.
  intros r self. eexists. split; [reflexivity|].
  split; [reflexivity|]. split; [reflexivity|]. vm_compute. discriminate.
Qed.

(** ** Root resolution *)

(** C2. When the root query returns at least one row,
    [get_root_graph_uri] returns the [workflow] of the first row; when it
    returns none, [get_root_graph_uri] raises ([IndexError], from
    [list(...)\[0\]]), and so does the constructor on a document whose fact
    graph this is: no viewer, hence no diagram, is built. *)
Theorem C2_root_resolution (print_rdf : string → string)
    (parse_n3 : string → exn + RdfGraph) (filename : string)
    (self : CWLViewer) (rdf : RdfGraph) :
  _rdf_graph self = Some rdf →
  parse_n3 (print_rdf filename) = inr rdf →
  match root_rows rdf with
  | first :: _ =>
      get_root_graph_uri self
      = (inr (workflow first), with_call (rdflib_query get_root None) self)
  | [] =>
      get_root_graph_uri self
      = (inl IndexError, with_call (rdflib_query get_root None) self)
      ∧ CWLViewer_new print_rdf parse_n3 filename = inl IndexError
  end.
Proof.
  intros Hrdf Hparse. unfold get_root_graph_uri. unfold_monad.
  rewrite Hrdf. cbn.
  destruct (root_rows rdf) as [|first rest] eqn:Hrows; [|done].
  split; [done|]. unfold CWLViewer_new.
  pose proof (init_run print_rdf parse_n3 filename object_new) as Hrun.
  cbv zeta in Hrun. rewrite Hparse, Hrows in Hrun.
  unfold __init__ in *. by rewrite Hrun.
Qed.

Lemma C2_root_resolution_witness :
  (get_root_graph_uri
     (mkCWLViewer "wf.cwl" _init_dot_graph (Some two_step_rdf) None [])
   = (inr "file:///wf.cwl#main",
      mkCWLViewer "wf.cwl" _init_dot_graph (Some two_step_rdf) None
                  [rdflib_query get_root None]))
  ∧ (get_root_graph_uri
       (mkCWLViewer "wf.cwl" _init_dot_graph (Some rootless_rdf) None [])
     = (inl IndexError,
        mkCWLViewer "wf.cwl" _init_dot_graph (Some rootless_rdf) None
                    [rdflib_query get_root None])
     ∧ CWLViewer_new (fun _ => "") (fun _ => inr rootless_rdf) "wf.cwl"
       = inl IndexError).
Proof.
  split.
  - apply (C2_root_resolution (fun _ => "") (fun _ => inr two_step_rdf) "wf.cwl"
             (mkCWLViewer "wf.cwl" _init_dot_graph (Some two_step_rdf) None [])
             two_step_rdf); reflexivity.
  - apply (C2_root_resolution (fun _ => "") (fun _ => inr rootless_rdf) "wf.cwl"
             (mkCWLViewer "wf.cwl" _init_dot_graph (Some rootless_rdf) None [])
             rootless_rdf); reflexivity.
Defined.

(** ** What the deltas of the extractors contain *)

Lemma proj_dconcat {X A} (f : delta → list X) (δ : A → delta) (rows : list A) :
  f dnil = [] → (∀ a b, f (dapp a b) = f a ++ f b) →
  f (dconcat (δ <$> rows)) = rows ≫= (fun r => f (δ r)).
Proof.
  intros Hnil Happ. induction rows as [|r rows IH]; [done|].
  rewrite fmap_cons, bind_cons. cbn [dconcat foldr].
  rewrite Happ. f_equal. exact IH.
Qed.

Lemma elem_of_kw_writes n kw (key : string * string) v :
  (key, v) ∈ kw_writes n kw ↔ key.1 = n ∧ (key.2, v) ∈ kw.
Proof.
  unfold kw_writes. rewrite list_elem_of_fmap. split.
  - intros ([k' v'] & [= -> ->] & Hin). done.
  - destruct key as [n' k]. simpl. intros [-> Hin]. by exists (k, v).
Qed.

Lemma elem_of_boundary_kw l k v :
  (k, v) ∈ boundary_kw l ↔
  (k = "fillcolor" ∧ v = "#94DDF4") ∨ (k = "style" ∧ v = "filled")
  ∨ (k = "label" ∧ v = l).
Proof.
  unfold boundary_kw. rewrite !elem_of_cons, elem_of_nil.
  split; [intros [?|[?|[?|[]]]]; simplify_eq; tauto|].
  intros [[-> ->]|[[-> ->]|[-> ->]]]; tauto.
Qed.

Lemma elem_of_step_kw l k v :
  (k, v) ∈ step_kw l ↔
  (k = "fillcolor" ∧ v = "lightgoldenrodyellow") ∨ (k = "style" ∧ v = "filled")
  ∨ (k = "label" ∧ v = l).
Proof.
  unfold step_kw. rewrite !elem_of_cons, elem_of_nil.
  split; [intros [?|[?|[?|[]]]]; simplify_eq; tauto|].
  intros [[-> ->]|[[-> ->]|[-> ->]]]; tauto.
Qed.

Section inner_delta_facts.
Variable rows : list InnerEdgeRow.

Lemma inner_delta_nodes n :
  n ∈ d_nodes (inner_delta rows) ↔
  ∃ r, r ∈ rows ∧ (n = source_step r ∨ n = target_step r).
Proof.
  unfold inner_delta. rewrite (proj_dconcat d_nodes) by done.
  rewrite list_elem_of_bind. simpl. split.
  - intros (r & Hin & Hr). exists r. split; [done|].
    rewrite !elem_of_cons, elem_of_nil in Hin. tauto.
  - intros (r & Hr & Hn). exists r. split; [|done].
    rewrite !elem_of_cons, elem_of_nil. tauto.
Qed.

Lemma inner_delta_attr key v :
  (key, v) ∈ d_attr (inner_delta rows) ↔
  ∃ r, r ∈ rows
       ∧ ((key.1 = source_step r
           ∧ (key.2, v) ∈ step_kw (resolved_label (source_label r) (source_step r)))
          ∨ (key.1 = target_step r
             ∧ (key.2, v) ∈ step_kw (resolved_label (target_label r) (target_step r)))).
Proof.
  unfold inner_delta. rewrite (proj_dconcat d_attr) by done.
  rewrite list_elem_of_bind.
  assert (∀ r, d_attr (inner_row_delta r)
               = kw_writes (source_step r)
                   (step_kw (resolved_label (source_label r) (source_step r)))
                 ++ kw_writes (target_step r)
                      (step_kw (resolved_label (target_label r) (target_step r))))
    as Heq by done.
  split.
  - intros (r & Hin & Hr). exists r. split; [done|].
    rewrite Heq, elem_of_app, !elem_of_kw_writes in Hin. exact Hin.
  - intros (r & Hr & Hk). exists r. split; [|done].
    rewrite Heq, elem_of_app, !elem_of_kw_writes. exact Hk.
Qed.

Lemma inner_delta_edges : d_edges (inner_delta rows) = inner_edges rows.
Proof.
  unfold inner_delta, inner_edges. rewrite (proj_dconcat d_edges) by done.
  induction rows as [|r rs IH]; [done|]. rewrite bind_cons, fmap_cons, IH. done.
Qed.

Lemma inner_delta_subgraph_nodes : d_subgraph_nodes (inner_delta rows) = [].
Proof.
  unfold inner_delta. rewrite (proj_dconcat d_subgraph_nodes) by done.
  induction rows as [|r rs IH]; [done|]. rewrite bind_cons, IH. done.
Qed.
End inner_delta_facts.

Section input_delta_facts.
Variable rows : list InputRow.t.

Lemma input_delta_nodes n :
  n ∈ d_nodes (input_delta rows) ↔
  ∃ r, r ∈ rows ∧ (n = InputRow.input r ∨ n = InputRow.step r).
Proof.
  unfold input_delta. simpl. rewrite (proj_dconcat d_nodes) by done.
  rewrite list_elem_of_bind. simpl. split.
  - intros (r & Hin & Hr). exists r. split; [done|].
    rewrite !elem_of_cons, elem_of_nil in Hin.
    destruct Hin as [?|[?|[?|?]]]; tauto.
  - intros (r & Hr & Hn). exists r. split; [|done].
    rewrite !elem_of_cons, elem_of_nil. tauto.
Qed.

Lemma input_delta_attr key v :
  (key, v) ∈ d_attr (input_delta rows) ↔
  ∃ r, r ∈ rows ∧ key.1 = InputRow.input r
       ∧ (key.2, v) ∈ boundary_kw (after_first_hash (InputRow.input r)).
Proof.
  unfold input_delta. simpl. rewrite (proj_dconcat d_attr) by done.
  rewrite list_elem_of_bind. simpl. split.
  - intros (r & Hin & Hr). exists r. split; [done|].
    by apply (elem_of_kw_writes _ (boundary_kw _)) in Hin.
  - intros (r & Hr & Hk). exists r. split; [|done].
    by apply (elem_of_kw_writes _ (boundary_kw _)).
Qed.

Lemma input_delta_edges : d_edges (input_delta rows) = input_edges rows.
Proof.
  unfold input_delta, input_edges. simpl.
  rewrite (proj_dconcat d_edges) by done.
  induction rows as [|r rs IH]; [done|]. rewrite bind_cons, fmap_cons, IH. done.
Qed.

Lemma input_delta_subgraph_nodes p :
  p ∈ d_subgraph_nodes (input_delta rows) ↔
  ∃ r, r ∈ rows ∧ p = ("cluster_inputs", InputRow.input r).
Proof.
  unfold input_delta. simpl. rewrite (proj_dconcat d_subgraph_nodes) by done.
  rewrite list_elem_of_bind. simpl. split.
  - intros (r & Hin & Hr). exists r. split; [done|].
    by apply list_elem_of_singleton in Hin.
  - intros (r & Hr & ->). exists r. split; [|done].
    by apply list_elem_of_singleton.
Qed.
End input_delta_facts.

Section output_delta_facts.
Variable rows : list OutputRow.t.

Lemma output_delta_nodes n :
  n ∈ d_nodes (output_delta rows) ↔
  ∃ r, r ∈ rows ∧ (n = OutputRow.output r ∨ n = OutputRow.step r).
Proof.
  unfold output_delta. simpl. rewrite (proj_dconcat d_nodes) by done.
  rewrite list_elem_of_bind. simpl. split.
  - intros (r & Hin & Hr). exists r. split; [done|].
    rewrite !elem_of_cons, elem_of_nil in Hin.
    destruct Hin as [?|[?|[?|?]]]; tauto.
  - intros (r & Hr & Hn). exists r. split; [|done].
    rewrite !elem_of_cons, elem_of_nil. tauto.
Qed.

Lemma output_delta_attr key v :
  (key, v) ∈ d_attr (output_delta rows) ↔
  ∃ r, r ∈ rows ∧ key.1 = OutputRow.output r
       ∧ (key.2, v) ∈ boundary_kw (after_first_hash (OutputRow.output r)).
Proof.
  unfold output_delta. simpl. rewrite (proj_dconcat d_attr) by done.
  rewrite list_elem_of_bind. simpl. split.
  - intros (r & Hin & Hr). exists r. split; [done|].
    by apply (elem_of_kw_writes _ (boundary_kw _)) in Hin.
  - intros (r & Hr & Hk). exists r. split; [|done].
    by apply (elem_of_kw_writes _ (boundary_kw _)).
Qed.

Lemma output_delta_edges : d_edges (output_delta rows) = output_edges rows.
Proof.
  unfold output_delta, output_edges. simpl.
  rewrite (proj_dconcat d_edges) by done.
  induction rows as [|r rs IH]; [done|]. rewrite bind_cons, fmap_cons, IH. done.
Qed.

Lemma output_delta_subgraph_nodes p :
  p ∈ d_subgraph_nodes (output_delta rows) ↔
  ∃ r, r ∈ rows ∧ p = ("cluster_outputs", OutputRow.output r).
Proof.
  unfold output_delta. simpl. rewrite (proj_dconcat d_subgraph_nodes) by done.
  rewrite list_elem_of_bind. simpl. split.
  - intros (r & Hin & Hr). exists r. split; [done|].
    by apply list_elem_of_singleton in Hin.
  - intros (r & Hr & ->). exists r. split; [|done].
    by apply list_elem_of_singleton.
Qed.
End output_delta_facts.

(** ** The graph after a delta *)

Lemma edges_apply_delta d g :
  pgv.edges (apply_delta d g) = pgv.edges g ++ d_edges d.
Proof. done. Qed.

Lemma elem_of_nodes_apply_delta d g n :
  n ∈ pgv.nodes (apply_delta d g) ↔ n ∈ pgv.nodes g ∨ n ∈ d_nodes d.
Proof. apply elem_of_creates. Qed.

Lemma in_subgraph_apply_delta d g name n :
  pgv.in_subgraph (apply_delta d g) name n ↔
  pgv.in_subgraph g name n ∨ (name, n) ∈ d_subgraph_nodes d.
Proof. apply elem_of_creates. Qed.

Lemma node_get_apply_delta_const d g n k v :
  (∃ v', ((n, k), v') ∈ d_attr d) → (∀ v', ((n, k), v') ∈ d_attr d → v' = v) →
  pgv.node_get (apply_delta d g) n k = Some v.
Proof. apply lookup_inserts_const. Qed.

Lemma node_get_apply_delta_keep d g n k v :
  pgv.node_get g n k = Some v → (∀ v', ((n, k), v') ∈ d_attr d → v' = v) →
  pgv.node_get (apply_delta d g) n k = Some v.
Proof. apply lookup_inserts_keep. Qed.

Lemma node_get_apply_delta_notin d g n k :
  (∀ v, ((n, k), v) ∉ d_attr d) →
  pgv.node_get (apply_delta d g) n k = pgv.node_get g n k.
Proof. apply lookup_inserts_notin. Qed.

(** Every attribute the input and the output extractor write is a function
    of the node's URI alone. *)
Lemma input_delta_writes rows n :
  (∃ r, r ∈ rows ∧ InputRow.input r = n) →
  ∀ k v, (k, v) ∈ boundary_kw (after_first_hash n) →
         (∃ v', ((n, k), v') ∈ d_attr (input_delta rows))
         ∧ (∀ v', ((n, k), v') ∈ d_attr (input_delta rows) → v' = v).
Proof.
  intros (r & Hr & <-) k v Hkv. split.
  - exists v. apply input_delta_attr. by exists r.
  - intros v' Hv'. apply input_delta_attr in Hv' as (r' & _ & Heq & Hkv').
    simpl in *. rewrite <- Heq in Hkv'.
    apply elem_of_boundary_kw in Hkv, Hkv'.
    destruct Hkv as [[-> ->]|[[-> ->]|[-> ->]]];
      destruct Hkv' as [[? ->]|[[? ->]|[? ->]]]; done.
Qed.

Lemma output_delta_writes rows n :
  (∃ r, r ∈ rows ∧ OutputRow.output r = n) →
  ∀ k v, (k, v) ∈ boundary_kw (after_first_hash n) →
         (∃ v', ((n, k), v') ∈ d_attr (output_delta rows))
         ∧ (∀ v', ((n, k), v') ∈ d_attr (output_delta rows) → v' = v).
Proof.
  intros (r & Hr & <-) k v Hkv. split.
  - exists v. apply output_delta_attr. by exists r.
  - intros v' Hv'. apply output_delta_attr in Hv' as (r' & _ & Heq & Hkv').
    simpl in *. rewrite <- Heq in Hkv'.
    apply elem_of_boundary_kw in Hkv, Hkv'.
    destruct Hkv as [[-> ->]|[[-> ->]|[-> ->]]];
      destruct Hkv' as [[? ->]|[[? ->]|[? ->]]]; done.
Qed.

(** A boundary write leaves a boundary value in place. *)
Lemma input_delta_agrees rows n k v v' :
  (k, v) ∈ boundary_kw (after_first_hash n) →
  ((n, k), v') ∈ d_attr (input_delta rows) → v' = v.
Proof.
  intros Hkv Hv'. apply input_delta_attr in Hv' as (r' & Hr' & Heq & Hkv').
  simpl in Heq. by apply (input_delta_writes rows n (ex_intro _ r' (conj Hr' (eq_sym Heq))) k v Hkv),
    input_delta_attr; exists r'.
Qed.

Lemma output_delta_agrees rows n k v v' :
  (k, v) ∈ boundary_kw (after_first_hash n) →
  ((n, k), v') ∈ d_attr (output_delta rows) → v' = v.
Proof.
  intros Hkv Hv'. apply output_delta_attr in Hv' as (r' & Hr' & Heq & Hkv').
  simpl in Heq. by apply (output_delta_writes rows n (ex_intro _ r' (conj Hr' (eq_sym Heq))) k v Hkv),
    output_delta_attr; exists r'.
Qed.

Lemma boundary_kw_fill l :
  ("fillcolor", "#94DDF4") ∈ boundary_kw l ∧ ("style", "filled") ∈ boundary_kw l
  ∧ ("label", l) ∈ boundary_kw l.
Proof. unfold boundary_kw. rewrite !elem_of_cons. tauto. Qed.

(** The graph after the input extractor. *)
Lemma input_pass_facts rows g0 r :
  r ∈ rows →
  let g := apply_delta (input_delta rows) g0 in
  InputRow.input r ∈ pgv.nodes g
  ∧ InputRow.step r ∈ pgv.nodes g
  ∧ boundary_input g (InputRow.input r)
  ∧ pgv.node_get g (InputRow.input r) "label"
    = Some (after_first_hash (InputRow.input r))
  ∧ (InputRow.input r, InputRow.step r) ∈ pgv.edges g.
Proof.
  intros Hr g.
  assert (∃ r', r' ∈ rows ∧ InputRow.input r' = InputRow.input r) as Hex
    by (by exists r).
  pose proof (input_delta_writes rows _ Hex) as Hw.
  destruct (boundary_kw_fill (after_first_hash (InputRow.input r)))
    as (Hf & Hst & Hl).
  repeat split.
  - apply elem_of_nodes_apply_delta. right. apply input_delta_nodes.
    exists r. tauto.
  - apply elem_of_nodes_apply_delta. right. apply input_delta_nodes.
    exists r. tauto.
  - apply node_get_apply_delta_const; [apply (Hw _ _ Hf) | apply (Hw _ _ Hf)].
  - apply node_get_apply_delta_const; [apply (Hw _ _ Hst) | apply (Hw _ _ Hst)].
  - apply in_subgraph_apply_delta. right. apply input_delta_subgraph_nodes.
    by exists r.
  - apply node_get_apply_delta_const; [apply (Hw _ _ Hl) | apply (Hw _ _ Hl)].
  - change (pgv.edges g) with (pgv.edges g0 ++ d_edges (input_delta rows)).
    rewrite input_delta_edges.
    apply elem_of_app. right. unfold input_edges.
    apply list_elem_of_fmap. by exists r.
Qed.

(** The graph after the output extractor. *)
Lemma output_pass_facts rows g0 r :
  r ∈ rows →
  let g := apply_delta (output_delta rows) g0 in
  OutputRow.output r ∈ pgv.nodes g
  ∧ OutputRow.step r ∈ pgv.nodes g
  ∧ boundary_output g (OutputRow.output r)
  ∧ pgv.node_get g (OutputRow.output r) "label"
    = Some (after_first_hash (OutputRow.output r))
  ∧ (OutputRow.step r, OutputRow.output r) ∈ pgv.edges g.
Proof.
  intros Hr g.
  assert (∃ r', r' ∈ rows ∧ OutputRow.output r' = OutputRow.output r) as Hex
    by (by exists r).
  pose proof (output_delta_writes rows _ Hex) as Hw.
  destruct (boundary_kw_fill (after_first_hash (OutputRow.output r)))
    as (Hf & Hst & Hl).
  repeat split.
  - apply elem_of_nodes_apply_delta. right. apply output_delta_nodes.
    exists r. tauto.
  - apply elem_of_nodes_apply_delta. right. apply output_delta_nodes.
    exists r. tauto.
  - apply node_get_apply_delta_const; [apply (Hw _ _ Hf) | apply (Hw _ _ Hf)].
  - apply node_get_apply_delta_const; [apply (Hw _ _ Hst) | apply (Hw _ _ Hst)].
  - apply in_subgraph_apply_delta. right. apply output_delta_subgraph_nodes.
    by exists r.
  - apply node_get_apply_delta_const; [apply (Hw _ _ Hl) | apply (Hw _ _ Hl)].
  - change (pgv.edges g) with (pgv.edges g0 ++ d_edges (output_delta rows)).
    rewrite output_delta_edges.
    apply elem_of_app. right. unfold output_edges.
    apply list_elem_of_fmap. by exists r.
Qed.

(** ** Boundary edges *)

(** C3. [_set_input_edges] returns whenever [urlparse] accepts the input
    URI of every row. When it returns, every input row has its input node
    in the graph and in the cluster ["cluster_inputs"], filled as a boundary
    node and labelled with the fragment of the input URI (no other field of
    the row is read), and its edge from the input node to the step node;
    the extractor appends exactly one edge per row, in row order. The same
    holds of [_set_output_edges], with the cluster ["cluster_outputs"] and
    the edge from the step node to the output node. *)
Theorem C3_boundary_edges (self : CWLViewer) (rdf : RdfGraph) (root : string) :
_rdf_graph self = Some rdf →
_root_graph_uri self = Some root →
pgv.strict (_dot_graph self) = false →
((input_rows_ok (input_edge_rows rdf root) →
  ∃ self', _set_input_edges self = (inr tt, self'))
 ∧ ∀ self',
     _set_input_edges self = (inr tt, self') →
     pgv.edges (_dot_graph self')
     = pgv.edges (_dot_graph self) ++ input_edges (input_edge_rows rdf root)
     ∧ ∀ r, r ∈ input_edge_rows rdf root →
         boundary_node (_dot_graph self') "cluster_inputs" (InputRow.input r)
         ∧ InputRow.step r ∈ pgv.nodes (_dot_graph self')
         ∧ (InputRow.input r, InputRow.step r) ∈ pgv.edges (_dot_graph self'))
∧ ((output_rows_ok (output_edge_rows rdf root) →
    ∃ self', _set_output_edges self = (inr tt, self'))
   ∧ ∀ self',
       _set_output_edges self = (inr tt, self') →
       pgv.edges (_dot_graph self')
       = pgv.edges (_dot_graph self) ++ output_edges (output_edge_rows rdf root)
       ∧ ∀ r, r ∈ output_edge_rows rdf root →
           boundary_node (_dot_graph self') "cluster_outputs" (OutputRow.output r)
           ∧ OutputRow.step r ∈ pgv.nodes (_dot_graph self')
           ∧ (OutputRow.step r, OutputRow.output r)
             ∈ pgv.edges (_dot_graph self')).
Proof.
intros Hrdf Hroot Hs. split.
- pose proof (_set_input_edges_spec self rdf root Hrdf Hroot Hs) as Hspec.
  split.
  { intros Hok. destruct (_set_input_edges self) as [[e|[]] self'];
      [done | by eexists]. }
  intros self' Hrun.
  rewrite Hrun in Hspec. destruct Hspec as [Hok ->].
  rewrite dot_graph_with_dot_graph. split.
  { by rewrite edges_apply_delta, input_delta_edges. }
  intros r Hr.
  destruct (input_pass_facts _ (_dot_graph self) r Hr)
    as (Hn & Hst & [Hfill Hin] & Hlab & He).
  split; [|by split].
  split; [done|]. split; [done|]. split; [done|].
  apply (proj1 (Forall_forall _ _) Hok) in Hr.
  destruct (parses_fragment _ Hr) as (p & Hp & Hfr).
  exists p. by rewrite Hfr.
- pose proof (_set_output_edges_spec self rdf root Hrdf Hroot Hs) as Hspec.
  split.
  { intros Hok. destruct (_set_output_edges self) as [[e|[]] self'];
      [done | by eexists]. }
  intros self' Hrun.
  rewrite Hrun in Hspec. destruct Hspec as [Hok ->].
  rewrite dot_graph_with_dot_graph. split.
  { by rewrite edges_apply_delta, output_delta_edges. }
  intros r Hr.
  destruct (output_pass_facts _ (_dot_graph self) r Hr)
    as (Hn & Hst & [Hfill Hin] & Hlab & He).
  split; [|by split].
  split; [done|]. split; [done|]. split; [done|].
  apply (proj1 (Forall_forall _ _) Hok) in Hr.
  destruct (parses_fragment _ Hr) as (p & Hp & Hfr).
  exists p. by rewrite Hfr.
Qed.

Lemma C3_boundary_edges_witness :
(let g := _dot_graph (_set_input_edges two_step_self).2 in
 pgv.edges g = [("file:///wf.cwl#main/i", "file:///wf.cwl#main/s1")]
 ∧ ∀ r, r ∈ input_edge_rows two_step_rdf "file:///wf.cwl#main" →
     boundary_node g "cluster_inputs" (InputRow.input r)
     ∧ InputRow.step r ∈ pgv.nodes g
     ∧ (InputRow.input r, InputRow.step r) ∈ pgv.edges g)
∧ (let g := _dot_graph (_set_output_edges two_step_self).2 in
   pgv.edges g = [("file:///wf.cwl#main/s2", "file:///wf.cwl#main/o")]
   ∧ ∀ r, r ∈ output_edge_rows two_step_rdf "file:///wf.cwl#main" →
       boundary_node g "cluster_outputs" (OutputRow.output r)
       ∧ OutputRow.step r ∈ pgv.nodes g
       ∧ (OutputRow.step r, OutputRow.output r) ∈ pgv.edges g).
Proof.
destruct (C3_boundary_edges two_step_self two_step_rdf "file:///wf.cwl#main"
            eq_refl eq_refl eq_refl) as [[_ Hin] [_ Hout]].
split.
- apply (Hin (_set_input_edges two_step_self).2). vm_compute. reflexivity.
- apply (Hout (_set_output_edges two_step_self).2). vm_compute. reflexivity.
Defined.

(** ** Fragments as labels *)

Lemma input_edge_body_label r self self' :
input_edge_body r self = (inr tt, self') →
pgv.node_get (_dot_graph self') (InputRow.input r) "label"
= Some (after_first_hash (InputRow.input r)).
Proof.
intros Hrun. pose proof (input_edge_body_step r self) as Hstep.
rewrite Hrun in Hstep. destruct Hstep as [_ ->].
rewrite dot_graph_with_dot_graph. unfold input_step.
rewrite node_get_add_edge, node_get_subgraph_add_node.
apply node_get_add_node_boundary.
Qed.

Lemma output_edge_body_label r self self' :
output_edge_body r self = (inr tt, self') →
pgv.node_get (_dot_graph self') (OutputRow.output r) "label"
= Some (after_first_hash (OutputRow.output r)).
Proof.
intros Hrun. pose proof (output_edge_body_step r self) as Hstep.
rewrite Hrun in Hstep. destruct Hstep as [_ ->].
rewrite dot_graph_with_dot_graph. unfold output_step.
rewrite node_get_add_edge, node_get_subgraph_add_node.
apply node_get_add_node_boundary.
Qed.

Lemma input_edge_body_returns r self :
parses (InputRow.input r) → ∃ self', input_edge_body r self = (inr tt, self').
Proof.
intros Hp. pose proof (input_edge_body_step r self) as Hstep.
destruct (input_edge_body r self) as [[e|[]] self']; [done | by eexists].
Qed.

Lemma output_edge_body_returns r self :
parses (OutputRow.output r) → ∃ self', output_edge_body r self = (inr tt, self').
Proof.
intros Hp. pose proof (output_edge_body_step r self) as Hstep.
destruct (output_edge_body r self) as [[e|[]] self']; [done | by eexists].
Qed.

(** On a text with at most one ['#'] the text after the last ['#'] is the
    text after the first one. *)
Lemma after_last_hash_first : ∀ s,
  urllib.contains "#" (after_first_hash s) = false →
  after_last_hash s = after_first_hash s.
Proof.
induction s as [|c s IH]; [done|]. cbn [after_first_hash after_last_hash].
destruct (Ascii.eqb c "#") eqn:Hc.
- intros Hs. by rewrite Hs.
- intros Hs. destruct (urllib.contains "#" s) eqn:Hin; [by apply IH|].
  symmetry. by apply after_first_hash_none.
Qed.

(** C6. On a URI, a text of URI characters with at most one ['#'], on which
    [urlparse] returns, the fragment it returns is the text after the last
    ['#'] of the URI, and the empty string when the URI has no ['#']; each
    of the three places that fall back on the fragment writes it to the
    node's label as it is, the empty string included. (The releases of
    [urllib.parse] differ in the characters they remove from a text before
    they split it -- TAB, CR, LF and leading blanks, none of which is a URI
    character -- and in the hosts they raise on, not in where they cut the
    fragment.) *)
Theorem C6_fragment_label (uri : string) (p : urllib.SplitResult) :
uri_text uri = true →
urllib.urlparse uri = inr p →
urllib.fragment p = after_last_hash uri
∧ (urllib.contains "#" uri = false → urllib.fragment p = "")
∧ (∀ step self, ∃ self',
     input_edge_body (InputRow.mk uri step) self = (inr tt, self')
     ∧ pgv.node_get (_dot_graph self') uri "label" = Some (urllib.fragment p))
∧ (∀ step self, ∃ self',
     output_edge_body (OutputRow.mk uri step) self = (inr tt, self')
     ∧ pgv.node_get (_dot_graph self') uri "label" = Some (urllib.fragment p))
∧ (∀ r self self',
     inner_edge_body r self = (inr tt, self') →
     (target_step r = uri → target_label r = None →
      pgv.node_get (_dot_graph self') uri "label" = Some (urllib.fragment p))
     ∧ (source_step r = uri → source_label r = None →
        source_step r ≠ target_step r →
        pgv.node_get (_dot_graph self') uri "label" = Some (urllib.fragment p))).
Proof.
intros Huri Hp. assert (urllib.fragment p = after_first_hash uri) as Hfr
  by (by apply urlsplit_fragment).
assert (parses uri) as Hparses by (by exists p).
split.
{ rewrite Hfr. symmetry. apply after_last_hash_first.
  unfold uri_text in Huri. apply andb_true_iff in Huri as [_ Hone].
  by apply negb_true_iff in Hone. }
split.
{ intros Hno. rewrite Hfr. by apply after_first_hash_none. }
split; [|split].
- intros step self.
  destruct (input_edge_body_returns (InputRow.mk uri step) self Hparses)
    as [self' Hrun].
  exists self'. split; [done|]. rewrite Hfr.
  apply (input_edge_body_label _ _ _ Hrun).
- intros step self.
  destruct (output_edge_body_returns (OutputRow.mk uri step) self Hparses)
    as [self' Hrun].
  exists self'. split; [done|]. rewrite Hfr.
  apply (output_edge_body_label _ _ _ Hrun).
- intros r self self' Hrun.
  destruct (inner_edge_body_labels r self self' Hrun) as [Ht Hs]. split.
  + intros <- Hnone. rewrite Hnone in Ht. by rewrite Hfr.
  + intros <- Hnone Hne. rewrite Hnone in Hs. rewrite Hfr. by apply Hs.
Qed.

Lemma C6_fragment_label_witness :
after_last_hash "file:///wf.cwl#main/compute" = "main/compute"
∧ urllib.fragment (urllib.mkSplitResult "file" "" "/wf.cwl" "" "main/compute")
  = "main/compute"
∧ (∀ step self, ∃ self',
     input_edge_body (InputRow.mk "file:///wf.cwl#main/compute" step) self
     = (inr tt, self')
     ∧ pgv.node_get (_dot_graph self') "file:///wf.cwl#main/compute" "label"
       = Some "main/compute").
Proof.
destruct (C6_fragment_label "file:///wf.cwl#main/compute"
            (urllib.mkSplitResult "file" "" "/wf.cwl" "" "main/compute")
            eq_refl eq_refl) as (H1 & _ & H3 & _).
split; [reflexivity|]. split; [reflexivity | exact H3].
Defined.

(** ** The order of the pipeline *)

Lemma bind_returns {A B} (m : M A) (k : A → M B) self b self' :
(m ≫= k) self = (inr b, self') →
∃ a self1, m self = (inr a, self1) ∧ k a self1 = (inr b, self').
Proof.
unfold mbind, M_bind. destruct (m self) as [[e|a] self1]; [done|].
intros Hk. by exists a, self1.
Qed.

(** C7. Whatever its outcome, a construction calls its collaborators in
    the order of the pipeline -- [cwltool], the N3 parser, the root query,
    then the inner-edge, input-edge and output-edge queries, each of the
    last three bound to the resolved root -- and stops at the first call
    that raises. It returns whenever the text parses, the root query has a
    row and [urlparse] accepts the URIs whose fragment is needed. When it
    returns, all six calls were made, the three
    extractors ran one after the other, each on the state its predecessor
    returned, the first of them on the state in which the root was already
    assigned, and the edges of the graph are the inner, the input and the
    output edges, in this order. *)
Theorem C7_pipeline_order (print_rdf : string → string)
  (parse_n3 : string → exn + RdfGraph) (filename : string)
  (self0 : CWLViewer) :
(∃ root,
   (∀ rdf first rest,
      parse_n3 (print_rdf filename) = inr rdf →
      root_rows rdf = first :: rest → root = workflow first)
   ∧ calls (__init__ print_rdf parse_n3 filename self0).2
     `prefix_of` calls self0 ++ pipeline_calls filename (print_rdf filename) root)
∧ (∀ self',
     __init__ print_rdf parse_n3 filename self0 = (inr tt, self') →
     ∃ rdf first rest self1 self2,
       parse_n3 (print_rdf filename) = inr rdf
       ∧ root_rows rdf = first :: rest
       ∧ _set_inner_edges
           (mkCWLViewer filename _init_dot_graph (Some rdf)
              (Some (workflow first))
              (calls self0
               ++ [cwltool_print_rdf filename; rdflib_parse (print_rdf filename);
                   rdflib_query get_root None]))
         = (inr tt, self1)
       ∧ _set_input_edges self1 = (inr tt, self2)
       ∧ _set_output_edges self2 = (inr tt, self')
       ∧ _root_graph_uri self' = Some (workflow first)
       ∧ calls self'
         = calls self0
           ++ pipeline_calls filename (print_rdf filename) (workflow first)
       ∧ pgv.edges (_dot_graph self')
         = inner_edges (inner_edge_rows rdf (workflow first))
           ++ input_edges (input_edge_rows rdf (workflow first))
           ++ output_edges (output_edge_rows rdf (workflow first)))
∧ (∀ rdf first rest,
     parse_n3 (print_rdf filename) = inr rdf →
     root_rows rdf = first :: rest →
     rows_ok rdf (workflow first) →
     ∃ self', __init__ print_rdf parse_n3 filename self0 = (inr tt, self')).
Proof.
split; [apply init_calls_prefix|].
split; [|apply init_total].
intros self' Hrun.
destruct (init_returns _ _ _ _ _ Hrun) as (rdf & first & rest & Hp & Hrows & _ & Hself).
pose proof (init_run print_rdf parse_n3 filename self0) as Hinit.
cbv zeta in Hinit. rewrite Hp, Hrows in Hinit.
unfold __init__ in *. rewrite Hrun in Hinit. symmetry in Hinit.
apply bind_returns in Hinit as ([] & self1 & H1 & Hinit).
apply bind_returns in Hinit as ([] & self2 & H2 & H3).
exists rdf, first, rest, self1, self2.
rewrite <- (assoc_L (++)) in H1.
split; [done|]. split; [done|]. split; [exact H1|].
split; [done|]. split; [done|].
rewrite Hself. split; [done|]. split; [done|].
unfold built_graph. cbn [_dot_graph].
rewrite !edges_apply_delta, inner_delta_edges, input_delta_edges,
  output_delta_edges.
by rewrite <- (assoc_L (++)).
Qed.

Lemma C7_pipeline_order_witness :
let run := __init__ (fun _ => "") (fun _ => inr two_step_rdf) "wf.cwl" object_new in
run = (inr tt, run.2)
∧ calls run.2
  = [cwltool_print_rdf "wf.cwl"; rdflib_parse "";
     rdflib_query get_root None;
     rdflib_query get_inner_edges (Some "file:///wf.cwl#main");
     rdflib_query get_input_edges (Some "file:///wf.cwl#main");
     rdflib_query get_output_edges (Some "file:///wf.cwl#main")]
∧ pgv.edges (_dot_graph run.2)
  = [("file:///wf.cwl#main/s1", "file:///wf.cwl#main/s2");
     ("file:///wf.cwl#main/i", "file:///wf.cwl#main/s1");
     ("file:///wf.cwl#main/s2", "file:///wf.cwl#main/o")].
Proof.
intros run.
assert (run = (inr tt, run.2)) as Hrun by (vm_compute; reflexivity).
split; [exact Hrun|].
destruct (C7_pipeline_order (fun _ => "") (fun _ => inr two_step_rdf) "wf.cwl"
            object_new) as (_ & Hret & _).
destruct (Hret run.2 Hrun)
  as (rdf & first & rest & s1 & s2 & Hp & Hrows & _ & _ & _ & _ & Hc & He).
injection Hp as <-. injection Hrows as <- <-.
split; [exact Hc | exact He].
Defined.

(** ** Running an extractor twice *)

Lemma run_extractor_spec e self rdf root :
_rdf_graph self = Some rdf → _root_graph_uri self = Some root →
pgv.strict (_dot_graph self) = false →
match run_extractor e self with
| (inr _, self') =>
    extractor_ok e rdf root
    ∧ self' = with_dot_graph
                (apply_delta (extractor_delta e rdf root) (_dot_graph self))
                (with_call (rdflib_query (extractor_query e) (Some root)) self)
| (inl _, _) => ¬ extractor_ok e rdf root
end.
Proof.
destruct e; [apply _set_inner_edges_spec | apply _set_input_edges_spec
            | apply _set_output_edges_spec].
Qed.

Lemma extractor_delta_edges e rdf root :
d_edges (extractor_delta e rdf root) = extractor_edges e rdf root.
Proof.
destruct e; [apply inner_delta_edges | apply input_delta_edges
            | apply output_delta_edges].
Qed.

(** Applying a delta a second time changes the edge sequence only. *)
Lemma apply_delta_twice d g :
apply_delta d (apply_delta d g)
= pgv.upd_edges (fun es => es ++ d_edges d) (apply_delta d g).
Proof.
unfold apply_delta, pgv.upd_edges. cbn.
by rewrite !creates_idemp, !inserts_idemp.
Qed.

(** C5. When an extractor has returned, running it again on the resulting
    viewer returns too and leaves the node table, the node attributes, the
    subgraphs, their attributes and their members -- the whole graph but
    for its edges -- as the first run left them; each run appends the
    extractor's edges, one per row, so that after the second run the edge
    sequence holds them twice. *)
Theorem C5_extractor_idempotence (e : extractor) (self self1 : CWLViewer)
  (rdf : RdfGraph) (root : string) :
_rdf_graph self = Some rdf →
_root_graph_uri self = Some root →
pgv.strict (_dot_graph self) = false →
run_extractor e self = (inr tt, self1) →
∃ self2,
  run_extractor e self1 = (inr tt, self2)
  ∧ pgv.nodes (_dot_graph self2) = pgv.nodes (_dot_graph self1)
  ∧ pgv.attr (_dot_graph self2) = pgv.attr (_dot_graph self1)
  ∧ without_edges (_dot_graph self2) = without_edges (_dot_graph self1)
  ∧ pgv.edges (_dot_graph self1)
    = pgv.edges (_dot_graph self) ++ extractor_edges e rdf root
  ∧ pgv.edges (_dot_graph self2)
    = pgv.edges (_dot_graph self) ++ extractor_edges e rdf root
      ++ extractor_edges e rdf root.
Proof.
intros Hrdf Hroot Hs Hrun.
pose proof (run_extractor_spec e self rdf root Hrdf Hroot Hs) as H1.
rewrite Hrun in H1. destruct H1 as [Hok ->].
set (g1 := apply_delta (extractor_delta e rdf root) (_dot_graph self)).
set (self1 := with_dot_graph g1 _).
pose proof (run_extractor_spec e self1 rdf root Hrdf Hroot Hs) as H2.
destruct (run_extractor e self1) as [[ex|[]] self2]; [done|].
destruct H2 as [_ ->]. eexists. split; [done|].
rewrite !dot_graph_with_dot_graph.
change (_dot_graph self1) with g1. unfold g1 at 1 3 5.
rewrite apply_delta_twice. fold g1.
rewrite <- extractor_delta_edges.
split; [done|]. split; [done|]. split; [done|]. split; [done|].
cbn [pgv.edges pgv.upd_edges]. unfold g1.
by rewrite edges_apply_delta, (assoc_L (++)).
Qed.

Lemma C5_extractor_idempotence_witness :
C5_example InnerEdges ∧ C5_example InputEdges ∧ C5_example OutputEdges.
Proof.
assert (∀ e, run_extractor e two_step_self
             = (inr tt, (run_extractor e two_step_self).2) → C5_example e)
  as Hex.
{ intros e Hrun.
  destruct (C5_extractor_idempotence e two_step_self _ two_step_rdf
              "file:///wf.cwl#main" eq_refl eq_refl eq_refl Hrun)
    as (self2 & H2 & Hn & Ha & _ & _ & He).
  exists (run_extractor e two_step_self).2, self2.
  split; [exact Hrun|]. split; [exact H2|]. split; [exact Hn|].
  split; [exact Ha | exact He]. }
split; [|split]; apply Hex; vm_compute; reflexivity.
Defined.

(** ** The graph of a complete construction *)

Lemma is_Some_lookup_inserts {K V} `{Countable K} (ws : list (K * V)) :
∀ (m : gmap K V) k, is_Some (m !! k) → is_Some (inserts ws m !! k).
Proof.
induction ws as [|[k' v'] ws IH]; intros m k Hm; [done|].
change (inserts ((k', v') :: ws) m) with (inserts ws (<[k':=v']> m)).
apply IH. rewrite lookup_insert. by case_decide.
Qed.

Lemma is_Some_lookup_inserts_elem {K V} `{Countable K} (ws : list (K * V)) :
∀ (m : gmap K V) k v, (k, v) ∈ ws → is_Some (inserts ws m !! k).
Proof.
induction ws as [|[k' v'] ws IH]; intros m k v Hin.
- by apply elem_of_nil in Hin.
- change (inserts ((k', v') :: ws) m) with (inserts ws (<[k':=v']> m)).
  apply elem_of_cons in Hin as [[= <- <-]|Hin]; [|by eapply IH].
  apply is_Some_lookup_inserts. rewrite lookup_insert_eq. by eexists.
Qed.

Section built.
Variable rdf : RdfGraph.
Variable root : string.

Let inner := inner_edge_rows rdf root.
Let inputs := input_edge_rows rdf root.
Let outputs := output_edge_rows rdf root.
Let g1 := apply_delta (inner_delta inner) _init_dot_graph.
Let g2 := apply_delta (input_delta inputs) g1.
Let g := built_graph rdf root.

Lemma built_graph_stages : g = apply_delta (output_delta outputs) g2.
Proof. done. Qed.

Lemma built_edges :
pgv.edges g = inner_edges inner ++ input_edges inputs ++ output_edges outputs.
Proof.
rewrite built_graph_stages. unfold g2, g1.
rewrite !edges_apply_delta, inner_delta_edges, input_delta_edges,
  output_delta_edges.
by rewrite <- (assoc_L (++)).
Qed.

Lemma built_in_inputs n :
pgv.in_subgraph g "cluster_inputs" n ↔ is_input_uri rdf root n.
Proof.
rewrite built_graph_stages. unfold g2, g1.
rewrite !in_subgraph_apply_delta, inner_delta_subgraph_nodes,
  input_delta_subgraph_nodes, output_delta_subgraph_nodes.
unfold pgv.in_subgraph, is_input_uri. cbn [pgv.subgraph_nodes _init_dot_graph].
split.
- intros [[[H|H]|(r & Hr & Heq)]|(r & Hr & Heq)]; try by apply elem_of_nil in H.
  + injection Heq as ->. by exists r.
  + discriminate Heq.
- intros (r & Hr & <-). left. right. by exists r.
Qed.

Lemma built_in_outputs n :
pgv.in_subgraph g "cluster_outputs" n ↔ is_output_uri rdf root n.
Proof.
rewrite built_graph_stages. unfold g2, g1.
rewrite !in_subgraph_apply_delta, inner_delta_subgraph_nodes,
  input_delta_subgraph_nodes, output_delta_subgraph_nodes.
unfold pgv.in_subgraph, is_output_uri. cbn [pgv.subgraph_nodes _init_dot_graph].
split.
- intros [[[H|H]|(r & Hr & Heq)]|(r & Hr & Heq)]; try by apply elem_of_nil in H.
  + discriminate Heq.
  + injection Heq as ->. by exists r.
- intros (r & Hr & <-). right. by exists r.
Qed.

Lemma built_nodes n :
n ∈ pgv.nodes g ↔
is_inner_step rdf root n ∨ is_input_uri rdf root n ∨ is_output_uri rdf root n
∨ is_boundary_step rdf root n.
Proof.
rewrite built_graph_stages. unfold g2, g1.
rewrite !elem_of_nodes_apply_delta, inner_delta_nodes, input_delta_nodes,
  output_delta_nodes.
unfold is_inner_step, is_input_uri, is_output_uri, is_boundary_step.
cbn [pgv.nodes _init_dot_graph]. split.
- intros [[[H|H]|(r & Hr & [->| ->])]|(r & Hr & [->| ->])].
  + by apply elem_of_nil in H.
  + by left.
  + right. left. by exists r.
  + do 3 right. left. by exists r.
  + right. right. left. by exists r.
  + do 3 right. right. by exists r.
- intros [H|[(r & Hr & <-)|[(r & Hr & <-)|[(r & Hr & <-)|(r & Hr & <-)]]]].
  + left. left. by right.
  + left. right. exists r. tauto.
  + right. exists r. tauto.
  + left. right. exists r. tauto.
  + right. exists r. tauto.
Qed.

(** A node that is an input or an output carries the boundary attributes
    and the fragment of its URI as label. *)
Lemma built_boundary n k v :
is_input_uri rdf root n ∨ is_output_uri rdf root n →
(k, v) ∈ boundary_kw (after_first_hash n) →
pgv.node_get g n k = Some v.
Proof.
intros Hn Hkv. rewrite built_graph_stages. destruct Hn as [Hin|Hout].
- apply node_get_apply_delta_keep.
  + unfold g2. apply node_get_apply_delta_const;
      apply (input_delta_writes inputs n Hin k v Hkv).
  + intros v'. by apply output_delta_agrees.
- apply node_get_apply_delta_const;
    apply (output_delta_writes outputs n Hout k v Hkv).
Qed.

Lemma built_boundary_fill n :
is_input_uri rdf root n ∨ is_output_uri rdf root n → boundary_fill g n.
Proof.
intros Hn.
destruct (boundary_kw_fill (after_first_hash n)) as (Hf & Hst & _).
split; by apply built_boundary.
Qed.

(** No extractor writes an attribute of a node that is neither a step of
    an inner row nor an input nor an output. *)
Lemma built_unstyled n :
¬ is_inner_step rdf root n → ¬ is_input_uri rdf root n →
¬ is_output_uri rdf root n → unstyled g n.
Proof.
intros Hni Hnin Hnout k. rewrite built_graph_stages. unfold g2, g1.
rewrite !node_get_apply_delta_notin; [done| | |].
- intros v Hv. apply inner_delta_attr in Hv as (r & Hr & Hw). apply Hni.
  exists r. split; [done|]. simpl in Hw. tauto.
- intros v Hv. apply input_delta_attr in Hv as (r & Hr & Heq & _).
  apply Hnin. by exists r.
- intros v Hv. apply output_delta_attr in Hv as (r & Hr & Heq & _).
  apply Hnout. by exists r.
Qed.

Lemma inner_delta_writes n :
is_inner_step rdf root n →
∀ k, k = "fillcolor" ∨ k = "style" ∨ k = "label" →
     ∃ v, ((n, k), v) ∈ d_attr (inner_delta inner).
Proof.
intros (r & Hr & Hn) k Hk.
assert (∀ l, ∃ v, (k, v) ∈ step_kw l) as Hkw.
{ intros l. destruct Hk as [->|[->| ->]]; eexists; apply elem_of_step_kw;
    [left|right; left|right; right]; done. }
destruct Hn as [->| ->].
- destruct (Hkw (resolved_label (source_label r) (source_step r))) as [v Hv].
  exists v. apply inner_delta_attr. exists r. split; [done|]. by left.
- destruct (Hkw (resolved_label (target_label r) (target_step r))) as [v Hv].
  exists v. apply inner_delta_attr. exists r. split; [done|]. by right.
Qed.

Lemma inner_delta_agrees n k v v' :
(k = "fillcolor" ∧ v = "lightgoldenrodyellow") ∨ (k = "style" ∧ v = "filled") →
((n, k), v') ∈ d_attr (inner_delta inner) → v' = v.
Proof.
intros Hk Hv'. apply inner_delta_attr in Hv' as (r & _ & Hw). simpl in Hw.
destruct Hw as [[_ Hw]|[_ Hw]]; apply elem_of_step_kw in Hw;
  destruct Hk as [[-> ->]|[-> ->]];
  destruct Hw as [[? ->]|[[? ->]|[? ->]]]; done.
Qed.


(** Every step of an inner row carries a fill colour, the filled style and
    a label, whatever the later extractors do to it. *)
Lemma built_inner_styled n :
is_inner_step rdf root n →
is_Some (pgv.node_get g n "fillcolor")
∧ pgv.node_get g n "style" = Some "filled"
∧ is_Some (pgv.node_get g n "label").
Proof.
intros Hi.
assert (∀ k, k = "fillcolor" ∨ k = "style" ∨ k = "label" →
             is_Some (pgv.node_get g n k)) as Hsome.
{ intros k Hk. rewrite built_graph_stages. unfold g2.
  do 2 apply is_Some_lookup_inserts.
  destruct (inner_delta_writes n Hi k Hk) as [v Hv].
  by apply (is_Some_lookup_inserts_elem _ _ _ v). }
split; [apply Hsome; tauto|]. split; [|apply Hsome; tauto].
destruct (boundary_kw_fill (after_first_hash n)) as (_ & Hst & _).
rewrite built_graph_stages.
apply node_get_apply_delta_keep; [|intros v'; by apply output_delta_agrees].
apply node_get_apply_delta_keep; [|intros v'; by apply input_delta_agrees].
apply node_get_apply_delta_const.
- apply inner_delta_writes; [done | tauto].
- intros v'. apply inner_delta_agrees. tauto.
Qed.

End built.

(** ** Cluster invariants *)




(** ** Step nodes created by [add_edge] *)

(** C9 (as amended). After a construction that returns, the step of an
    input or output row that is a step of no inner-edge row, and that is
    not itself returned as an input or as an output, is a node of the
    graph on which no attribute was set (no fill colour, no style, no
    label) and which is in neither cluster; the default shape of the graph
    is ["record"]. Every step of an inner-edge row, by contrast, carries a
    fill colour, the filled style and a label. *)
Theorem C9_implicit_step_nodes (print_rdf : string → string)
  (parse_n3 : string → exn + RdfGraph) (filename : string)
  (self0 self' : CWLViewer) :
__init__ print_rdf parse_n3 filename self0 = (inr tt, self') →
∃ rdf root,
  _rdf_graph self' = Some rdf ∧ _root_graph_uri self' = Some root
  ∧ pgv.node_attr (_dot_graph self') !! "shape" = Some "record"
  ∧ (∀ s, is_boundary_step rdf root s →
          ¬ is_inner_step rdf root s →
          ¬ is_input_uri rdf root s → ¬ is_output_uri rdf root s →
          s ∈ pgv.nodes (_dot_graph self')
          ∧ unstyled (_dot_graph self') s
          ∧ ¬ pgv.in_subgraph (_dot_graph self') "cluster_inputs" s
          ∧ ¬ pgv.in_subgraph (_dot_graph self') "cluster_outputs" s)
  ∧ (∀ n, is_inner_step rdf root n →
          is_Some (pgv.node_get (_dot_graph self') n "fillcolor")
          ∧ pgv.node_get (_dot_graph self') n "style" = Some "filled"
          ∧ is_Some (pgv.node_get (_dot_graph self') n "label")).
Proof.
intros Hrun.
destruct (init_returns _ _ _ _ _ Hrun) as (rdf & first & rest & _ & _ & _ & ->).
exists rdf, (workflow first). cbn [_rdf_graph _root_graph_uri _dot_graph].
split; [done|]. split; [done|]. split; [done|]. split.
- intros s Hstep Hni Hnin Hnout. split; [|split; [|split]].
  + apply built_nodes. tauto.
  + by apply built_unstyled.
  + intros Hin. by apply built_in_inputs in Hin.
  + intros Hout. by apply built_in_outputs in Hout.
- apply built_inner_styled.
Qed.

Lemma C9_implicit_step_nodes_witness :
let run := __init__ (fun _ => "") (fun _ => inr single_step_rdf) "wf.cwl"
             object_new in
run = (inr tt, run.2)
∧ "file:///wf.cwl#main/s" ∈ pgv.nodes (_dot_graph run.2)
∧ unstyled (_dot_graph run.2) "file:///wf.cwl#main/s".
Proof.
intros run.
assert (run = (inr tt, run.2)) as Hrun by (vm_compute; reflexivity).
split; [exact Hrun|].
destruct (C9_implicit_step_nodes _ _ _ _ _ Hrun)
  as (rdf & root & Hrdf & Hroot & _ & Himplicit & _).
vm_compute in Hrdf. injection Hrdf as <-.
vm_compute in Hroot. injection Hroot as <-.
destruct (Himplicit "file:///wf.cwl#main/s") as (Hn & Hu & _).
- left. eexists. split; [apply list_elem_of_here | reflexivity].
- intros (r & Hr & _). by apply elem_of_nil in Hr.
- intros (r & Hr & Heq). apply list_elem_of_singleton in Hr. subst r.
  discriminate Heq.
- intros (r & Hr & Heq). apply list_elem_of_singleton in Hr. subst r.
  discriminate Heq.
- split; [exact Hn | exact Hu].
Defined.

(** C9 as stated fails: the step of an input row that occurs in no
    inner-edge row, but is itself returned as an input by another row, is
    created by [add_node] with the boundary attributes. *)
Lemma C9_step_as_input_counterexample :
let s := "file:///wf.cwl#main/x" in
∃ v, CWLViewer_new (fun _ => "") (fun _ => inr step_as_input_rdf) "wf.cwl" = inr v
     ∧ is_boundary_step step_as_input_rdf "file:///wf.cwl#main" s
     ∧ ¬ is_inner_step step_as_input_rdf "file:///wf.cwl#main" s
     ∧ pgv.node_get (_dot_graph v) s "fillcolor" = Some "#94DDF4"
     ∧ pgv.node_get (_dot_graph v) s "label" = Some "main/x"
     ∧ ¬ unstyled (_dot_graph v) s.
Proof.
intros s.
exists (mkCWLViewer "wf.cwl" (built_graph step_as_input_rdf "file:///wf.cwl#main")
          (Some step_as_input_rdf) (Some "file:///wf.cwl#main")
          (pipeline_calls "wf.cwl" "" "file:///wf.cwl#main")).
split; [vm_compute; reflexivity|]. cbn [_dot_graph].
split. { left. eexists. split; [apply list_elem_of_here | reflexivity]. }
split. { intros (r & Hr & _). by apply elem_of_nil in Hr. }
split; [vm_compute; reflexivity|]. split; [vm_compute; reflexivity|].
intros Hu. specialize (Hu "fillcolor"). vm_compute in Hu. discriminate Hu.
Qed.

(** * Further properties of the code *)

(** ** [setup.py]: [get_version] *)

Section get_version.
Import setup.

Lemma contains_app c : ∀ a b,
urllib.contains c (String.append a b)
= urllib.contains c a || urllib.contains c b.
Proof.
induction a as [|d a IH]; intros b; [done|].
change (String.append (String d a) b) with (String d (String.append a b)).
cbn [urllib.contains]. destruct (Ascii.eqb c d); [done | apply IH].
Qed.

Lemma split_cut sep : ∀ a rest,
urllib.contains sep a = false →
split sep (String.append a (String sep rest)) = a :: split sep rest.
Proof.
induction a as [|d a IH]; intros rest Ha.
- change (String.append EmptyString (String sep rest)) with (String sep rest).
  cbn [split]. by rewrite Ascii.eqb_refl.
- change (String.append (String d a) (String sep rest))
    with (String d (String.append a (String sep rest))).
  cbn [urllib.contains] in Ha. cbn [split]. rewrite Ascii.eqb_sym.
  destruct (Ascii.eqb sep d); [done|]. by rewrite IH.
Qed.

Lemma split_none sep : ∀ v, urllib.contains sep v = false → split sep v = [v].
Proof.
induction v as [|d v IH]; intros Hv; [done|].
cbn [urllib.contains] in Hv. cbn [split]. rewrite Ascii.eqb_sym.
destruct (Ascii.eqb sep d); [done|]. by rewrite IH.
Qed.

Lemma split_second_None sep : ∀ s,
split sep s !! 1%nat = None ↔ urllib.contains sep s = false.
Proof.
induction s as [|d s IH]; [done|].
cbn [split urllib.contains]. rewrite (Ascii.eqb_sym sep d).
destruct (Ascii.eqb d sep).
- split; [|done]. destruct s as [|e s]; [done|]. cbn [split].
  destruct (Ascii.eqb e sep); [done|]. by destruct (split sep s).
- rewrite <- IH. destruct (split sep s) as [|l ls] eqn:E; [|done].
  by destruct s as [|e s]; [|cbn [split] in E; destruct (Ascii.eqb e sep);
    [|destruct (split sep s)]].
Qed.

Lemma splitlines_cut : ∀ l rest,
no_linebreak l →
splitlines (String.append l (String "010" rest)) = l :: splitlines rest.
Proof.
unfold no_linebreak. induction l as [|c l IH]; intros rest Hl.
- change (String.append EmptyString (String "010" rest))
    with (String "010"%char rest).
  cbn [splitlines]. change (is_linebreak "010") with true. cbv iota.
  by destruct rest.
- change (String.append (String c l) (String "010" rest))
    with (String c (String.append l (String "010" rest))).
  cbn [urllib.forallb] in Hl. apply andb_prop in Hl as [Hc Hl].
  cbn [splitlines]. apply negb_true_iff in Hc. rewrite Hc.
  by rewrite IH.
Qed.

Lemma splitlines_unlines lines :
Forall no_linebreak lines → splitlines (unlines lines) = lines.
Proof.
induction 1 as [|l ls Hl _ IH]; [done|].
cbn [unlines]. by rewrite splitlines_cut, IH.
Qed.

Lemma get_version_loop_skip pre lines :
Forall (fun l => ¬ version_line l) pre →
get_version_loop (pre ++ lines) = get_version_loop lines.
Proof.
unfold version_line. induction 1 as [|l ls Hl _ IH]; [done|].
cbn [app get_version_loop]. by destruct (String.prefix "__version__" l).
Qed.

(** What [get_version] returns on a file whose first [__version__] line is
    [line]. *)
Lemma get_version_first read p pre line post :
read p = Some (unlines (pre ++ line :: post)) →
Forall no_linebreak (pre ++ line :: post) →
Forall (fun l => ¬ version_line l) pre →
version_line line →
get_version read p
= match split (if urllib.contains dquote line then dquote else squote) line
          !! 1%nat with
  | Some version => inr version
  | None => inl IndexError
  end.
Proof.
intros Hread Hlines Hpre Hline. unfold get_version. rewrite Hread.
rewrite splitlines_unlines, get_version_loop_skip by done.
cbn [get_version_loop]. unfold version_line in Hline. by rewrite Hline.
Qed.

Lemma version_line_prefix rest : version_line (String.append "__version__" rest).
Proof. unfold version_line. destruct rest; vm_compute; reflexivity. Qed.
End get_version.

Lemma string_app_cons e a b :
String.append (String e a) b = String e (String.append a b).
Proof. reflexivity. Qed.

Lemma string_app_assoc : ∀ a b c,
String.append (String.append a b) c = String.append a (String.append b c).
Proof.
induction a as [|e a IH]; intros b c; [done|].
by rewrite !string_app_cons, IH.
Qed.

(** X1. [get_version] raises [OSError] exactly when the file cannot be
    opened, and [RuntimeError] exactly when the file is read and none of
    its lines starts with [__version__]. *)
Theorem X1_get_version_not_found (read : string → option string) (p : string) :
(setup.get_version read p = inl setup.OSError ↔ read p = None)
∧ (setup.get_version read p = inl setup.RuntimeError ↔
   ∃ text, read p = Some text
           ∧ Forall (fun l => ¬ setup.version_line l) (setup.splitlines text)).
Proof.
unfold setup.get_version.
assert (∀ lines,
  (setup.get_version_loop lines = inl setup.RuntimeError ↔
   Forall (fun l => ¬ setup.version_line l) lines)
  ∧ setup.get_version_loop lines ≠ inl setup.OSError) as Hloop.
{ unfold setup.version_line. induction lines as [|l ls [IH1 IH2]].
  - split; [split; [constructor | done] | done].
  - cbn [setup.get_version_loop].
    destruct (String.prefix "__version__" l) eqn:Hl.
    + destruct (setup.split _ l !! 1%nat); split; try done;
        (split; [done | intros HF; inversion HF; congruence]).
    + split; [|done]. rewrite IH1. split.
      * intros HF. constructor; [congruence | done].
      * intros HF. by inversion HF. }
destruct (read p) as [text|].
- destruct (Hloop (setup.splitlines text)) as [H1 H2]. split.
  + split; [by intros ? | done].
  + rewrite H1. split; [intros HF; by exists text | by intros (t & [= <-] & HF)].
- split; [done|]. split; [done | by intros (t & ? & _)].
Qed.

(** X2. When the first line of the file that starts with [__version__]
    holds a double-quoted text, [get_version] returns that text: whatever
    stands before the opening quote (single quotes included), after the
    closing quote and on the later lines. *)
Theorem X2_get_version_double_quoted (read : string → option string)
  (p : string) (pre post : list string) (mid v tail : string) :
let line :=
  String.append "__version__"
    (String.append mid
       (String setup.dquote (String.append v (String setup.dquote tail)))) in
read p = Some (setup.unlines (pre ++ line :: post)) →
Forall setup.no_linebreak (pre ++ line :: post) →
Forall (fun l => ¬ setup.version_line l) pre →
urllib.contains setup.dquote mid = false →
urllib.contains setup.dquote v = false →
setup.get_version read p = inr v.
Proof.
intros line Hread Hlines Hpre Hmid Hv.
rewrite (get_version_first read p pre line post Hread Hlines Hpre)
  by apply version_line_prefix.
assert (line = String.append (String.append "__version__" mid)
                 (String setup.dquote
                    (String.append v (String setup.dquote tail)))) as Hline
  by (unfold line; by rewrite string_app_assoc).
assert (urllib.contains setup.dquote line = true) as ->.
{ rewrite Hline, contains_app. apply orb_true_iff. right.
  cbn [urllib.contains]. by rewrite Ascii.eqb_refl. }
rewrite Hline, split_cut, split_cut; [done | done |].
rewrite contains_app, Hmid. done.
Qed.

Lemma X2_get_version_double_quoted_witness :
let line :=
  String.append "__version__ = "
    (String setup.dquote (String.append "0.1.0" (String setup.dquote ""))) in
setup.get_version
  (fun _ => Some (setup.unlines ["# the 'package'"; line; "__author__ = None"]))
  "pycwlviewer/__init__.py"
= inr "0.1.0".
Proof.
intros line.
apply (X2_get_version_double_quoted _ "pycwlviewer/__init__.py"
         ["# the 'package'"] ["__author__ = None"] " = " "0.1.0" "").
- reflexivity.
- repeat constructor.
- repeat constructor. unfold setup.version_line. vm_compute. discriminate.
- reflexivity.
- reflexivity.
Defined.

(** X3. When the first line of the file that starts with [__version__]
    contains neither a double nor a single quote, [get_version] raises
    [IndexError] from [split(delim)\[1\]], and this is the only way it
    raises [IndexError]: later lines are not tried. *)
Theorem X3_get_version_unquoted (read : string → option string)
  (p : string) (pre post : list string) (line : string) :
read p = Some (setup.unlines (pre ++ line :: post)) →
Forall setup.no_linebreak (pre ++ line :: post) →
Forall (fun l => ¬ setup.version_line l) pre →
setup.version_line line →
(setup.get_version read p = inl setup.IndexError ↔
 urllib.contains setup.dquote line = false
 ∧ urllib.contains setup.squote line = false).
Proof.
intros Hread Hlines Hpre Hline.
rewrite (get_version_first read p pre line post Hread Hlines Hpre Hline).
destruct (urllib.contains setup.dquote line) eqn:Hd.
- destruct (setup.split setup.dquote line !! 1%nat) as [v|] eqn:E.
  + split; [done | by intros [? _]].
  + apply split_second_None in E. congruence.
- destruct (setup.split setup.squote line !! 1%nat) as [v|] eqn:E.
  + split; [done|]. intros [_ Hs]. apply split_second_None in Hs. congruence.
  + apply split_second_None in E. done.
Qed.

Lemma X3_get_version_unquoted_witness :
setup.get_version
  (fun _ => Some (setup.unlines ["__version__ = 0.1.0";
                                 "__version__ = '0.2.0'"]))
  "pycwlviewer/__init__.py"
= inl setup.IndexError.
Proof.
apply (X3_get_version_unquoted _ "pycwlviewer/__init__.py" []
         ["__version__ = '0.2.0'"] "__version__ = 0.1.0").
- reflexivity.
- repeat constructor.
- constructor.
- unfold setup.version_line. vm_compute. reflexivity.
- split; reflexivity.
Defined.

(** X4. A single-quoted version is returned when its line contains no
    double quote. A double quote anywhere on the line takes over as the
    delimiter: if a double-quoted text follows the single-quoted version,
    that later text is returned instead of the version. *)
Theorem X4_get_version_single_quoted (read : string → option string)
  (p : string) (pre post : list string) (mid v tail : string) :
let line :=
  String.append "__version__"
    (String.append mid
       (String setup.squote (String.append v (String setup.squote tail)))) in
read p = Some (setup.unlines (pre ++ line :: post)) →
Forall setup.no_linebreak (pre ++ line :: post) →
Forall (fun l => ¬ setup.version_line l) pre →
urllib.contains setup.squote mid = false →
urllib.contains setup.squote v = false →
urllib.contains setup.dquote mid = false →
urllib.contains setup.dquote v = false →
(urllib.contains setup.dquote tail = false → setup.get_version read p = inr v)
∧ (∀ c w tail',
     tail = String.append c
              (String setup.dquote (String.append w (String setup.dquote tail'))) →
     urllib.contains setup.dquote c = false →
     urllib.contains setup.dquote w = false →
     setup.get_version read p = inr w).
Proof.
intros line Hread Hlines Hpre Hsmid Hsv Hdmid Hdv.
rewrite (get_version_first read p pre line post Hread Hlines Hpre)
  by apply version_line_prefix.
assert (∀ x, urllib.contains setup.dquote
               (String.append "__version__"
                  (String.append mid
                     (String setup.squote
                        (String.append v (String setup.squote x)))))
             = urllib.contains setup.dquote x) as Hd.
{ intros x. rewrite !contains_app, Hdmid.
  change (urllib.contains setup.dquote "__version__") with false.
  cbn [orb urllib.contains].
  change (Ascii.eqb setup.dquote setup.squote) with false. cbv iota.
  rewrite contains_app, Hdv. cbn [orb urllib.contains].
  change (Ascii.eqb setup.dquote setup.squote) with false. done. }
split.
- intros Hdtail. unfold line. rewrite Hd, Hdtail.
  rewrite <- string_app_assoc, split_cut, split_cut; [done | done |].
  rewrite contains_app, Hsmid. done.
- intros c w tail' -> Hc Hw. unfold line. rewrite Hd.
  assert (urllib.contains setup.dquote
            (String.append c (String setup.dquote
               (String.append w (String setup.dquote tail')))) = true) as ->.
  { rewrite contains_app. apply orb_true_iff. right. cbn [urllib.contains].
    by rewrite Ascii.eqb_refl. }
  set (rest := String setup.dquote (String.append w (String setup.dquote tail'))).
  assert (String.append "__version__"
            (String.append mid
               (String setup.squote
                  (String.append v (String setup.squote (String.append c rest)))))
          = String.append
              (String.append "__version__"
                 (String.append mid
                    (String setup.squote
                       (String.append v (String setup.squote c)))))
              rest) as ->.
  { repeat (progress (rewrite ?string_app_assoc, ?string_app_cons)). done. }
  unfold rest. rewrite split_cut, split_cut; [done | done |].
  rewrite Hd. done.
Qed.

Lemma X4_get_version_single_quoted_witness :
(setup.get_version
   (fun _ => Some (setup.unlines ["__version__ = '0.1.0'"]))
   "pycwlviewer/__init__.py" = inr "0.1.0")
∧ (let comment :=
     String.append "  # the "
       (String setup.dquote (String.append "stable" (String setup.dquote " one"))) in
   setup.get_version
     (fun _ => Some (setup.unlines
                       [String.append "__version__ = '0.1.0'" comment]))
     "pycwlviewer/__init__.py" = inr "stable").
Proof.
split.
- apply (X4_get_version_single_quoted _ "pycwlviewer/__init__.py" [] []
           " = " "0.1.0" ""); try reflexivity; repeat constructor.
- intros comment.
  refine (proj2 (X4_get_version_single_quoted _ "pycwlviewer/__init__.py" [] []
                   " = " "0.1.0" comment _ _ _ _ _ _ _)
            "  # the " "stable" " one" _ _ _);
    try reflexivity; repeat constructor.
Defined.

(** ** Invariants the graph operations keep *)

Lemma NoDup_find_or_create {A} `{EqDecision A} (x : A) (l : list A) :
NoDup l → NoDup (pgv.find_or_create x l).
Proof.
intros Hl. unfold pgv.find_or_create. case_decide; [done|].
apply NoDup_app. split; [done|]. split; [|apply NoDup_singleton].
intros y Hy Hx. apply list_elem_of_singleton in Hx. by subst.
Qed.

Lemma submseteq_find_or_create {A} `{EqDecision A} (x : A) (l : list A) :
l ⊆+ pgv.find_or_create x l.
Proof.
unfold pgv.find_or_create. case_decide; [done | by apply submseteq_inserts_r].
Qed.

Lemma well_formed_add_node n kw g :
well_formed g →
well_formed (pgv.add_node n kw g) ∧ n ∈ pgv.nodes (pgv.add_node n kw g).
Proof.
intros (Hn & Hs & Hsn & He & Hm & Ha).
assert (∀ m, m ∈ pgv.nodes g → m ∈ pgv.nodes (pgv.add_node n kw g)) as Hmono.
{ intros m Hin. apply elem_of_find_or_create. by left. }
assert (n ∈ pgv.nodes (pgv.add_node n kw g)) as Hin
  by (apply elem_of_find_or_create; by right).
split; [|done]. unfold well_formed.
split; [by apply NoDup_find_or_create|].
split; [done|]. split; [done|]. split; [|split].
- intros u v Huv. destruct (He u v Huv). split; by apply Hmono.
- intros sg m Hsg. apply Hmono. by apply (Hm sg).
- intros m k [v Hv]. cbn [pgv.attr pgv.add_node pgv.upd_attr] in Hv.
  rewrite update_attr_inserts in Hv.
  apply lookup_inserts_inv in Hv as [Hv|Hv].
  + apply Hmono, (Ha m k). by exists v.
  + apply elem_of_kw_writes in Hv as [Heq _]. simpl in Heq. by subst m.
Qed.

Lemma well_formed_add_edge u v g :
well_formed g → well_formed (pgv.add_edge u v g).
Proof.
intros Hg. unfold pgv.add_edge.
set (g1 := if decide (u ∈ pgv.nodes g) then g else pgv.add_node u [] g).
assert (well_formed g1 ∧ u ∈ pgv.nodes g1) as [Hg1 Hu].
{ unfold g1. case_decide; [done | by apply well_formed_add_node]. }
set (g2 := if decide (v ∈ pgv.nodes g1) then g1 else pgv.add_node v [] g1).
assert (well_formed g2 ∧ u ∈ pgv.nodes g2 ∧ v ∈ pgv.nodes g2) as (Hg2 & Hu2 & Hv2).
{ unfold g2. case_decide; [done|].
  destruct (well_formed_add_node v [] g1 Hg1) as [Hwf Hv]. split; [done|].
  split; [|done]. apply elem_of_find_or_create. by left. }
destruct (pgv.strict g2 && pgv.has_edge u v g2); [done|].
destruct Hg2 as (Hn & Hs & Hsn & He & Hm & Ha).
unfold well_formed. cbn [pgv.upd_edges pgv.nodes pgv.subgraphs
  pgv.subgraph_nodes pgv.edges pgv.attr].
split; [done|]. split; [done|]. split; [done|]. split; [|done].
intros a b Hab. apply elem_of_app in Hab as [Hab|Hab]; [by apply He|].
apply list_elem_of_singleton in Hab. by simplify_eq.
Qed.

Lemma well_formed_op_closed : op_closed well_formed.
Proof.
split; [intros n kw g Hg; by apply well_formed_add_node|].
split; [intros u v g Hg; by apply well_formed_add_edge|].
split; [|split].
- intros name g (Hn & Hs & Hrest). split; [done|].
  split; [by apply NoDup_find_or_create | done].
- by intros name k v g Hg.
- intros name n kw g Hg.
  destruct (well_formed_add_node n kw g Hg)
    as [(Hn & Hs & Hsn & He & Hm & Ha) Hin].
  unfold pgv.subgraph_add_node, well_formed.
  cbn [pgv.upd_subgraph_nodes pgv.nodes pgv.subgraphs pgv.subgraph_nodes
       pgv.edges pgv.attr].
  split; [done|]. split; [done|].
  split; [by apply NoDup_find_or_create|]. split; [done|]. split; [|done].
  intros sg m Hsg. apply elem_of_find_or_create in Hsg as [Hsg|[= -> ->]];
    [by apply (Hm sg) | done].
Qed.

Lemma well_formed_init_dot_graph : well_formed _init_dot_graph.
Proof.
unfold well_formed. cbn. repeat split; try constructor;
  try (intros; exfalso; eapply elem_of_nil; eassumption).
intros n k [v Hv]. by rewrite lookup_empty in Hv.
Qed.

Lemma extends_refl g : extends g g.
Proof. unfold extends. by split_and!. Qed.

Lemma extends_trans g1 g2 g3 : extends g1 g2 → extends g2 g3 → extends g1 g3.
Proof.
intros (Hn & He & Hs & Hsn & Ha & Hd & Hst) (Hn' & He' & Hs' & Hsn' & Ha' & Hd' & Hst').
unfold extends. split_and!; try (by etrans); try congruence.
intros key Hk. by apply Ha', Ha.
Qed.

Lemma extends_add_node n kw g : extends g (pgv.add_node n kw g).
Proof.
unfold extends. split_and!; try done; [apply submseteq_find_or_create|].
intros key Hk. cbn [pgv.attr pgv.add_node pgv.upd_attr].
rewrite update_attr_inserts. by apply is_Some_lookup_inserts.
Qed.

Lemma extends_add_edge u v g : extends g (pgv.add_edge u v g).
Proof.
unfold pgv.add_edge.
set (g1 := if decide (u ∈ pgv.nodes g) then g else pgv.add_node u [] g).
assert (extends g g1) as H1
  by (unfold g1; case_decide; [apply extends_refl | apply extends_add_node]).
set (g2 := if decide (v ∈ pgv.nodes g1) then g1 else pgv.add_node v [] g1).
assert (extends g1 g2) as H2
  by (unfold g2; case_decide; [apply extends_refl | apply extends_add_node]).
apply (extends_trans _ g1); [done|]. apply (extends_trans _ g2); [done|].
destruct (pgv.strict g2 && pgv.has_edge u v g2); [apply extends_refl|].
unfold extends. split_and!; try done.
cbn [pgv.edges pgv.upd_edges]. by apply submseteq_inserts_r.
Qed.

Lemma extends_op_closed g0 : op_closed (extends g0).
Proof.
split; [intros n kw g Hg; eapply extends_trans; [done | apply extends_add_node]|].
split; [intros u v g Hg; eapply extends_trans; [done | apply extends_add_edge]|].
split; [|split].
- intros name g Hg. eapply extends_trans; [done|].
  unfold extends. split_and!; try done. apply submseteq_find_or_create.
- intros name k v g Hg. eapply extends_trans; [done|].
  unfold extends. by split_and!.
- intros name n kw g Hg. eapply extends_trans; [done|].
  eapply extends_trans; [apply (extends_add_node n kw)|].
  unfold extends. split_and!; try done. apply submseteq_find_or_create.
Qed.

(** ** Invariants through the monad *)

Lemma preserves_bind {A B} I (m : M A) (k : A → M B) :
preserves I m → (∀ a, preserves I (k a)) → preserves I (m ≫= k).
Proof.
intros Hm Hk self HI. unfold mbind, M_bind. specialize (Hm self HI).
destruct (m self) as [[e|a] self1]; [done|]. by apply Hk.
Qed.

Lemma preserves_for {A} I (body : A → M unit) xs :
(∀ x, preserves I (body x)) → preserves I (for_ xs body).
Proof.
intros Hbody. induction xs as [|x xs IH]; [by intros self|].
cbn [for_]. apply preserves_bind; [apply Hbody | by intros _].
Qed.

Lemma preserves_pure {A} I (m : M A) :
(∀ self, (m self).2 = self) → preserves I m.
Proof. intros Hm self HI. by rewrite Hm. Qed.

Lemma preserves_label_expr I declared uri :
preserves I (match declared with
             | Some l => mret l
             | None => urlparse_fragment uri
             end : M string).
Proof.
apply preserves_pure. intros self.
destruct declared; [done | apply urlparse_fragment_state].
Qed.

(** An invariant that logging a call and each of the five graph operations
    keep is kept by every extractor, whether it returns or raises. *)
Lemma run_extractor_preserves (I : CWLViewer → Prop) :
(∀ c self, I self → I (with_call c self)) →
(∀ n kw self, I self →
   I (with_dot_graph (pgv.add_node n kw (_dot_graph self)) self)) →
(∀ u v self, I self →
   I (with_dot_graph (pgv.add_edge u v (_dot_graph self)) self)) →
(∀ name self, I self →
   I (with_dot_graph (pgv.add_subgraph name (_dot_graph self)) self)) →
(∀ name k v self, I self →
   I (with_dot_graph (pgv.subgraph_set_graph_attr name k v (_dot_graph self))
        self)) →
(∀ name n kw self, I self →
   I (with_dot_graph (pgv.subgraph_add_node name n kw (_dot_graph self)) self)) →
∀ e, preserves I (run_extractor e).
Proof.
intros Hlog Hnode Hedge Hsub Hattr Hsnode e.
assert (∀ A (m : M A), (∀ self, (m self).2 = self) → preserves I m) as Hpure
  by (intros; by apply preserves_pure).
assert (preserves I get_rdf_graph) as Hrdf.
{ apply Hpure. intros self. unfold get_rdf_graph. by destruct (_rdf_graph self). }
assert (preserves I get_root_graph_uri_attr) as Hroot.
{ apply Hpure. intros self. unfold get_root_graph_uri_attr.
  by destruct (_root_graph_uri self). }
assert (∀ c, preserves I (log c)) as Hl by (intros c self HI; by apply Hlog).
assert (∀ uri, preserves I (urlparse_fragment uri)) as Hfrag
  by (intros uri; apply Hpure; intros self; apply urlparse_fragment_state).
destruct e; cbn [run_extractor].
- unfold _set_inner_edges.
  apply preserves_bind; [done|]. intros rdf.
  apply preserves_bind; [done|]. intros root.
  apply preserves_bind; [done|]. intros _.
  apply preserves_for. intros r. unfold inner_edge_body.
  apply preserves_bind; [apply preserves_label_expr|]. intros l1.
  apply preserves_bind; [intros self HI; by apply Hnode|]. intros _.
  apply preserves_bind; [apply preserves_label_expr|]. intros l2.
  apply preserves_bind; [intros self HI; by apply Hnode|]. intros _.
  intros self HI. by apply Hedge.
- unfold _set_input_edges.
  apply preserves_bind; [intros self HI; by apply Hsub|]. intros _.
  do 3 (apply preserves_bind; [intros self HI; by apply Hattr|]; intros _).
  apply preserves_bind; [done|]. intros rdf.
  apply preserves_bind; [done|]. intros root.
  apply preserves_bind; [done|]. intros _.
  apply preserves_for. intros r. unfold input_edge_body.
  apply preserves_bind; [done|]. intros l.
  apply preserves_bind; [intros self HI; by apply Hsnode|]. intros _.
  intros self HI. by apply Hedge.
- unfold _set_output_edges.
  apply preserves_bind; [intros self HI; by apply Hsub|]. intros _.
  do 4 (apply preserves_bind; [intros self HI; by apply Hattr|]; intros _).
  apply preserves_bind; [done|]. intros rdf.
  apply preserves_bind; [done|]. intros root.
  apply preserves_bind; [done|]. intros _.
  apply preserves_for. intros r. unfold output_edge_body.
  apply preserves_bind; [done|]. intros l.
  apply preserves_bind; [intros self HI; by apply Hsnode|]. intros _.
  intros self HI. by apply Hedge.
Qed.

Lemma run_extractor_keeps (P : pgv.AGraph → Prop) e :
op_closed P → preserves (fun self => P (_dot_graph self)) (run_extractor e).
Proof.
intros (Hnode & Hedge & Hsub & Hattr & Hsnode).
apply run_extractor_preserves.
- by intros c self.
- intros n kw self. apply Hnode.
- intros u v self. apply Hedge.
- intros name self. apply Hsub.
- intros name k v self. apply Hattr.
- intros name n kw self. apply Hsnode.
Qed.

Lemma init_keeps (P : pgv.AGraph → Prop) print_rdf parse_n3 filename self0 :
op_closed P → P _init_dot_graph →
P (_dot_graph (__init__ print_rdf parse_n3 filename self0).2).
Proof.
intros Hop Hinit. rewrite init_run. cbv zeta.
destruct (parse_n3 (print_rdf filename)) as [e|rdf]; [done|].
destruct (root_rows rdf) as [|r rest]; [done|].
apply (preserves_bind (fun self => P (_dot_graph self)));
  [apply (run_extractor_keeps P InnerEdges Hop)| |done].
intros _. apply preserves_bind; [apply (run_extractor_keeps P InputEdges Hop)|].
intros _. apply (run_extractor_keeps P OutputEdges Hop).
Qed.

(** ** Properties of the extractors and of the constructor *)

(** X5. An extractor keeps the graph well formed, whether it returns or
    raises half way: no node, subgraph or subgraph member is listed twice,
    and every end of an edge, every member of a subgraph and every node
    with an attribute is in the node table. *)
Theorem X5_extractor_keeps_well_formed (e : extractor) (self : CWLViewer) :
well_formed (_dot_graph self) →
well_formed (_dot_graph (run_extractor e self).2).
Proof. apply (run_extractor_keeps well_formed e well_formed_op_closed). Qed.

Lemma X5_extractor_keeps_well_formed_witness :
well_formed (_dot_graph (run_extractor InnerEdges two_step_self).2)
∧ well_formed (_dot_graph (run_extractor InputEdges two_step_self).2)
∧ well_formed (_dot_graph (run_extractor OutputEdges two_step_self).2).
Proof.
split; [|split]; apply X5_extractor_keeps_well_formed;
  apply well_formed_init_dot_graph.
Defined.

(** X6. Whatever the outcome of the construction -- the viewer is built, or
    the parser, the root query or [urlparse] raises on the way -- the graph
    of [self] is a well-formed directed graph that is not strict. *)
Theorem X6_constructed_graph_well_formed (print_rdf : string → string)
  (parse_n3 : string → exn + RdfGraph) (filename : string)
  (self0 : CWLViewer) :
well_formed (_dot_graph (__init__ print_rdf parse_n3 filename self0).2)
∧ pgv.directed (_dot_graph (__init__ print_rdf parse_n3 filename self0).2) = true
∧ pgv.strict (_dot_graph (__init__ print_rdf parse_n3 filename self0).2) = false.
Proof.
split.
- apply init_keeps; [apply well_formed_op_closed | apply well_formed_init_dot_graph].
- pose proof (init_keeps (extends _init_dot_graph) print_rdf parse_n3 filename
                self0 (extends_op_closed _) (extends_refl _))
    as (_ & _ & _ & _ & _ & Hd & Hs).
  by rewrite Hd, Hs.
Qed.

(** X7. An extractor only adds to the graph, whether it returns or raises:
    every node, edge, subgraph and subgraph member it found is still there,
    an edge that was there several times at least as many times; no
    attribute that was set is unset; the graph keeps its kind. It does not
    assign the file name, the fact graph or the root URI of [self]. *)
Theorem X7_extractor_only_adds (e : extractor) (self : CWLViewer) :
extends (_dot_graph self) (_dot_graph (run_extractor e self).2)
∧ _filename (run_extractor e self).2 = _filename self
∧ _rdf_graph (run_extractor e self).2 = _rdf_graph self
∧ _root_graph_uri (run_extractor e self).2 = _root_graph_uri self.
Proof.
split.
- apply (run_extractor_keeps (extends (_dot_graph self)) e
           (extends_op_closed _) self (extends_refl _)).
- apply (run_extractor_preserves
           (fun s => _filename s = _filename self
                     ∧ _rdf_graph s = _rdf_graph self
                     ∧ _root_graph_uri s = _root_graph_uri self));
    try (by intros); done.
Qed.

(** X8. When the N3 parser raises on the text [cwltool] printed, the
    constructor raises the same exception: the text was handed to the
    parser as it is, no query was sent, and the graph is still the initial
    one. *)
Theorem X8_load_failure (print_rdf : string → string)
  (parse_n3 : string → exn + RdfGraph) (filename : string)
  (self0 : CWLViewer) (e : exn) :
parse_n3 (print_rdf filename) = inl e →
CWLViewer_new print_rdf parse_n3 filename = inl e
∧ __init__ print_rdf parse_n3 filename self0
  = (inl e,
     mkCWLViewer filename _init_dot_graph (_rdf_graph self0)
       (_root_graph_uri self0)
       (calls self0
        ++ [cwltool_print_rdf filename; rdflib_parse (print_rdf filename)])).
Proof.
intros Hparse.
assert (∀ s, __init__ print_rdf parse_n3 filename s
             = (inl e,
                mkCWLViewer filename _init_dot_graph (_rdf_graph s)
                  (_root_graph_uri s)
                  (calls s ++ [cwltool_print_rdf filename;
                               rdflib_parse (print_rdf filename)]))) as Hrun.
{ intros s. rewrite init_run. cbv zeta. by rewrite Hparse. }
split; [|apply Hrun]. unfold CWLViewer_new. by rewrite Hrun.
Qed.

Lemma X8_load_failure_witness :
CWLViewer_new (fun _ => "not n3") (fun _ => inl BadSyntax) "wf.cwl"
= inl BadSyntax
∧ __init__ (fun _ => "not n3") (fun _ => inl BadSyntax) "wf.cwl" object_new
  = (inl BadSyntax,
     mkCWLViewer "wf.cwl" _init_dot_graph None None
       [cwltool_print_rdf "wf.cwl"; rdflib_parse "not n3"]).
Proof.
apply (X8_load_failure (fun _ => "not n3") (fun _ => inl BadSyntax) "wf.cwl"
         object_new BadSyntax).
reflexivity.
Defined.

Lemma bind_nil_const {A B} (l : list A) : l ≫= (fun _ => @nil B) = [].
Proof. induction l as [|x l IH]; [done|]. by rewrite bind_cons, IH. Qed.

Lemma built_subgraphs rdf root :
pgv.subgraphs (built_graph rdf root) = ["cluster_inputs"; "cluster_outputs"]
∧ pgv.subgraph_attr (built_graph rdf root) = cluster_attrs.
Proof.
unfold built_graph, apply_delta. cbn [pgv.subgraphs pgv.subgraph_attr].
unfold inner_delta, input_delta, output_delta.
cbn [dapp d_subgraphs d_subgraph_attr subgraph_delta].
rewrite !(proj_dconcat d_subgraphs), !(proj_dconcat d_subgraph_attr) by done.
cbn [inner_row_delta input_row_delta output_row_delta dapp node_delta
     edge_delta subgraph_node_delta d_subgraphs d_subgraph_attr app].
rewrite !bind_nil_const, !app_nil_r. split; [done|].
refine (bool_decide_eq_true_1 _ _ : _ = cluster_attrs). vm_compute. reflexivity.
Qed.

(** X9. A construction that returns leaves exactly two subgraphs,
    ["cluster_inputs"] created first and ["cluster_outputs"] second, with
    the attributes [rank=same], [style=dashed], their titles and, for the
    outputs, [labelloc=b]: also when the workflow has no input or no output
    row, in which case the cluster is there and empty. *)
Theorem X9_clusters_always_present (print_rdf : string → string)
  (parse_n3 : string → exn + RdfGraph) (filename : string)
  (self0 self' : CWLViewer) :
__init__ print_rdf parse_n3 filename self0 = (inr tt, self') →
pgv.subgraphs (_dot_graph self') = ["cluster_inputs"; "cluster_outputs"]
∧ pgv.subgraph_attr (_dot_graph self') = cluster_attrs.
Proof.
intros Hrun.
destruct (init_returns _ _ _ _ _ Hrun) as (rdf & first & rest & _ & _ & _ & ->).
apply built_subgraphs.
Qed.

Lemma X9_clusters_always_present_witness :
let run := __init__ (fun _ => "") (fun _ => inr empty_workflow_rdf) "wf.cwl"
             object_new in
run = (inr tt, run.2)
∧ pgv.nodes (_dot_graph run.2) = []
∧ pgv.subgraph_nodes (_dot_graph run.2) = []
∧ pgv.subgraphs (_dot_graph run.2) = ["cluster_inputs"; "cluster_outputs"]
∧ pgv.subgraph_attr (_dot_graph run.2) = cluster_attrs.
Proof.
intros run.
assert (run = (inr tt, run.2)) as Hrun by (vm_compute; reflexivity).
split; [exact Hrun|]. split; [vm_compute; reflexivity|].
split; [vm_compute; reflexivity|].
apply (X9_clusters_always_present _ _ _ _ _ Hrun).
Defined.

Lemma elem_of_inner_edges rows u v :
(u, v) ∈ inner_edges rows ↔
∃ r, r ∈ rows ∧ u = source_step r ∧ v = target_step r.
Proof.
unfold inner_edges. rewrite list_elem_of_fmap. split.
- intros (r & [= -> ->] & Hr). by exists r.
- intros (r & Hr & -> & ->). by exists r.
Qed.

Lemma elem_of_input_edges rows u v :
(u, v) ∈ input_edges rows ↔
∃ r, r ∈ rows ∧ u = InputRow.input r ∧ v = InputRow.step r.
Proof.
unfold input_edges. rewrite list_elem_of_fmap. split.
- intros (r & [= -> ->] & Hr). by exists r.
- intros (r & Hr & -> & ->). by exists r.
Qed.

Lemma elem_of_output_edges rows u v :
(u, v) ∈ output_edges rows ↔
∃ r, r ∈ rows ∧ u = OutputRow.step r ∧ v = OutputRow.output r.
Proof.
unfold output_edges. rewrite list_elem_of_fmap. split.
- intros (r & [= -> ->] & Hr). by exists r.
- intros (r & Hr & -> & ->). by exists r.
Qed.

(** X10. In the graph of a construction that returns, the nodes are exactly
    the ends of the edges: there is no isolated node, so a step that no
    inner, input or output row mentions is not in the diagram. *)
Theorem X10_nodes_are_edge_ends (print_rdf : string → string)
  (parse_n3 : string → exn + RdfGraph) (filename : string)
  (self0 self' : CWLViewer) :
__init__ print_rdf parse_n3 filename self0 = (inr tt, self') →
∀ n, n ∈ pgv.nodes (_dot_graph self') ↔
     ∃ u v, (u, v) ∈ pgv.edges (_dot_graph self') ∧ (n = u ∨ n = v).
Proof.
intros Hrun n.
destruct (init_returns _ _ _ _ _ Hrun) as (rdf & first & rest & _ & _ & _ & ->).
cbn [_dot_graph]. rewrite built_nodes, built_edges.
setoid_rewrite elem_of_app. setoid_rewrite elem_of_app.
setoid_rewrite elem_of_inner_edges. setoid_rewrite elem_of_input_edges.
setoid_rewrite elem_of_output_edges.
unfold is_inner_step, is_input_uri, is_output_uri, is_boundary_step. split.
- intros [(r & Hr & Hn)|[(r & Hr & Hn)|[(r & Hr & Hn)|[(r & Hr & Hn)|(r & Hr & Hn)]]]].
  + exists (source_step r), (target_step r). split; [|done]. left. by exists r.
  + exists (InputRow.input r), (InputRow.step r). split; [|by left].
    right. left. by exists r.
  + exists (OutputRow.step r), (OutputRow.output r). split; [|by right].
    right. right. by exists r.
  + exists (InputRow.input r), (InputRow.step r). split; [|by right].
    right. left. by exists r.
  + exists (OutputRow.step r), (OutputRow.output r). split; [|by left].
    right. right. by exists r.
- intros (u & v & [(r & Hr & -> & ->)|[(r & Hr & -> & ->)|(r & Hr & -> & ->)]] & Hn).
  + left. exists r. split; [done|]. destruct Hn; tauto.
  + destruct Hn as [->| ->].
    * right. left. by exists r.
    * do 3 right. left. by exists r.
  + destruct Hn as [->| ->].
    * do 3 right. right. by exists r.
    * right. right. left. by exists r.
Qed.

Lemma X10_nodes_are_edge_ends_witness :
let run := __init__ (fun _ => "") (fun _ => inr single_step_rdf) "wf.cwl"
             object_new in
run = (inr tt, run.2)
∧ ∀ n, n ∈ pgv.nodes (_dot_graph run.2) ↔
       ∃ u v, (u, v) ∈ pgv.edges (_dot_graph run.2) ∧ (n = u ∨ n = v).
Proof.
intros run.
assert (run = (inr tt, run.2)) as Hrun by (vm_compute; reflexivity).
split; [exact Hrun|]. apply (X10_nodes_are_edge_ends _ _ _ _ _ Hrun).
Defined.

(** ** Which label a node keeps *)

Lemma apply_delta_dconcat_app ds1 ds2 g :
apply_delta (dconcat (ds1 ++ ds2)) g
= apply_delta (dconcat ds2) (apply_delta (dconcat ds1) g).
Proof.
revert g. induction ds1 as [|d ds1 IH]; intros g.
- by rewrite apply_delta_dnil.
- cbn [app]. by rewrite !apply_delta_dconcat_cons, IH.
Qed.

Lemma inner_step_labels r g :
pgv.node_get (inner_step r g) (target_step r) "label"
= Some (resolved_label (target_label r) (target_step r))
∧ (source_step r ≠ target_step r →
   pgv.node_get (inner_step r g) (source_step r) "label"
   = Some (resolved_label (source_label r) (source_step r))).
Proof.
unfold inner_step. split.
- rewrite node_get_add_edge. apply node_get_add_node_step_label.
- intros Hne. rewrite node_get_add_edge, node_get_add_node_ne by done.
  apply node_get_add_node_step_label.
Qed.

(** The label of a node after the inner-edge extractor, when the rows after
    [r] do not mention the node. *)
Lemma inner_delta_last_label pre r post g n :
pgv.strict g = false →
(∀ r', r' ∈ post → n ≠ source_step r' ∧ n ≠ target_step r') →
pgv.node_get (apply_delta (inner_delta (pre ++ r :: post)) g) n "label"
= pgv.node_get (inner_step r (apply_delta (inner_delta pre) g)) n "label".
Proof.
intros Hs Hpost. unfold inner_delta.
rewrite fmap_app, fmap_cons, apply_delta_dconcat_app, apply_delta_dconcat_cons.
rewrite node_get_apply_delta_notin.
- by rewrite <- inner_step_delta.
- intros v Hv. apply (inner_delta_attr post) in Hv as (r' & Hr' & Hw).
  destruct (Hpost r' Hr') as [Hns Hnt]. simpl in Hw. destruct Hw as [[? _]|[? _]];
    congruence.
Qed.

(** X11. A later inner-edge row overwrites the label of a step: after a
    construction that returns, a step that is neither an input nor an
    output carries the label of the last inner-edge row that mentions it --
    the row's target label, or its source label when the step is only the
    source of that row -- whatever labels earlier rows declared for it. *)
Theorem X11_last_inner_row_labels (print_rdf : string → string)
  (parse_n3 : string → exn + RdfGraph) (filename : string)
  (self0 self' : CWLViewer) :
__init__ print_rdf parse_n3 filename self0 = (inr tt, self') →
∃ rdf root,
  _rdf_graph self' = Some rdf ∧ _root_graph_uri self' = Some root
  ∧ ∀ pre r post n,
      inner_edge_rows rdf root = pre ++ r :: post →
      (∀ r', r' ∈ post → n ≠ source_step r' ∧ n ≠ target_step r') →
      ¬ is_input_uri rdf root n → ¬ is_output_uri rdf root n →
      (n = target_step r →
       carries_label (_dot_graph self') n (target_label r))
      ∧ (n = source_step r → n ≠ target_step r →
         carries_label (_dot_graph self') n (source_label r)).
Proof.
intros Hrun.
destruct (init_returns _ _ _ _ _ Hrun)
  as (rdf & first & rest & _ & _ & (Hok & _ & _) & ->).
exists rdf, (workflow first). cbn [_rdf_graph _root_graph_uri _dot_graph].
split; [done|]. split; [done|].
intros pre r post n Hrows Hpost Hnin Hnout.
assert (inner_row_ok r) as [Hsrc Htgt].
{ unfold inner_rows_ok in Hok. rewrite Hrows in Hok.
  apply Forall_app in Hok as [_ Hok]. by inversion Hok. }
assert (∀ k, pgv.node_get (built_graph rdf (workflow first)) n k
             = pgv.node_get
                 (apply_delta (inner_delta (pre ++ r :: post)) _init_dot_graph)
                 n k) as Hget.
{ intros k. unfold built_graph. rewrite Hrows.
  rewrite node_get_apply_delta_notin;
    [rewrite node_get_apply_delta_notin; [done|] |].
  - intros v Hv. apply input_delta_attr in Hv as (r' & Hr' & Heq & _).
    apply Hnin. by exists r'.
  - intros v Hv. apply output_delta_attr in Hv as (r' & Hr' & Heq & _).
    apply Hnout. by exists r'. }
destruct (inner_step_labels r (apply_delta (inner_delta pre) _init_dot_graph))
  as [Ht Hs].
split.
- intros ->. apply carries_resolved_label; [done|].
  by rewrite Hget, inner_delta_last_label.
- intros -> Hne. apply carries_resolved_label; [done|].
  rewrite Hget, inner_delta_last_label by done. by apply Hs.
Qed.

Lemma X11_last_inner_row_labels_witness :
let run := __init__ (fun _ => "") (fun _ => inr relabelled_rdf) "wf.cwl"
             object_new in
run = (inr tt, run.2)
∧ pgv.node_get (_dot_graph run.2) "file:///wf.cwl#main/s2" "label"
  = Some "second".
Proof.
assert (¬ is_input_uri relabelled_rdf "file:///wf.cwl#main"
            "file:///wf.cwl#main/s2") as Hnin.
{ intros (r' & Hr' & Heq). apply list_elem_of_singleton in Hr'. subst r'.
  discriminate Heq. }
assert (¬ is_output_uri relabelled_rdf "file:///wf.cwl#main"
            "file:///wf.cwl#main/s2") as Hnout.
{ intros (r' & Hr' & _). inversion Hr'. }
assert (∀ r' : InnerEdgeRow, r' ∈ [] →
          "file:///wf.cwl#main/s2" ≠ source_step r'
          ∧ "file:///wf.cwl#main/s2" ≠ target_step r') as Hpost.
{ intros r' Hr'. inversion Hr'. }
intros run.
assert (run = (inr tt, run.2)) as Hrun by (vm_compute; reflexivity).
split; [exact Hrun|].
destruct (X11_last_inner_row_labels _ _ _ _ _ Hrun)
  as (rdf & root & Hrdf & Hroot & Hlast).
assert (rdf = relabelled_rdf) as ->.
{ change (_rdf_graph run.2) with (Some relabelled_rdf) in Hrdf.
  by injection Hrdf. }
assert (root = "file:///wf.cwl#main") as ->.
{ change (_root_graph_uri run.2) with (Some "file:///wf.cwl#main") in Hroot.
  by injection Hroot. }
exact (proj2 (Hlast [mkInnerEdgeRow "file:///wf.cwl#main/s1" (Some "Step A")
                                    "file:///wf.cwl#main/s2" (Some "first")]
                (mkInnerEdgeRow "file:///wf.cwl#main/s2" (Some "second")
                                "file:///wf.cwl#main/s3" None)
                [] "file:///wf.cwl#main/s2" eq_refl Hpost Hnin Hnout)
         eq_refl ltac:(discriminate)).
Defined.

(** X12. The boundary extractors overwrite what the inner-edge extractor
    wrote: after a construction that returns, every URI returned as an
    input or as an output carries the boundary fill and the fragment of its
    URI as label, also when it is a step of an inner-edge row that declared
    a label for it. *)
Theorem X12_boundary_overwrites_step (print_rdf : string → string)
  (parse_n3 : string → exn + RdfGraph) (filename : string)
  (self0 self' : CWLViewer) :
__init__ print_rdf parse_n3 filename self0 = (inr tt, self') →
∃ rdf root,
  _rdf_graph self' = Some rdf ∧ _root_graph_uri self' = Some root
  ∧ ∀ n, is_input_uri rdf root n ∨ is_output_uri rdf root n →
         boundary_fill (_dot_graph self') n
         ∧ ∃ p, urllib.urlparse n = inr p
                ∧ pgv.node_get (_dot_graph self') n "label"
                  = Some (urllib.fragment p).
Proof.
intros Hrun.
destruct (init_returns _ _ _ _ _ Hrun)
  as (rdf & first & rest & _ & _ & (_ & Hin & Hout) & ->).
exists rdf, (workflow first). cbn [_rdf_graph _root_graph_uri _dot_graph].
split; [done|]. split; [done|]. intros n Hn.
split; [by apply built_boundary_fill|].
assert (parses n) as Hp.
{ destruct Hn as [(r & Hr & <-)|(r & Hr & <-)].
  - by apply (proj1 (Forall_forall _ _) Hin).
  - by apply (proj1 (Forall_forall _ _) Hout). }
destruct (parses_fragment n Hp) as (p & Hpar & Hfr).
exists p. split; [done|]. rewrite Hfr. apply built_boundary; [done|].
apply boundary_kw_fill.
Qed.

Lemma X12_boundary_overwrites_step_witness :
let run := __init__ (fun _ => "") (fun _ => inr relabelled_rdf) "wf.cwl"
             object_new in
run = (inr tt, run.2)
∧ is_inner_step relabelled_rdf "file:///wf.cwl#main" "file:///wf.cwl#main/s1"
∧ boundary_fill (_dot_graph run.2) "file:///wf.cwl#main/s1"
∧ pgv.node_get (_dot_graph run.2) "file:///wf.cwl#main/s1" "label"
  = Some "main/s1".
Proof.
assert (is_inner_step relabelled_rdf "file:///wf.cwl#main"
          "file:///wf.cwl#main/s1") as Hstep.
{ eexists. split; [apply list_elem_of_here|]. by left. }
assert (is_input_uri relabelled_rdf "file:///wf.cwl#main"
          "file:///wf.cwl#main/s1") as Hin.
{ eexists. split; [apply list_elem_of_here | reflexivity]. }
intros run.
assert (run = (inr tt, run.2)) as Hrun by (vm_compute; reflexivity).
split; [exact Hrun|]. split; [exact Hstep|].
destruct (X12_boundary_overwrites_step _ _ _ _ _ Hrun)
  as (rdf & root & Hrdf & Hroot & Hb).
assert (rdf = relabelled_rdf) as ->.
{ change (_rdf_graph run.2) with (Some relabelled_rdf) in Hrdf.
  by injection Hrdf. }
assert (root = "file:///wf.cwl#main") as ->.
{ change (_root_graph_uri run.2) with (Some "file:///wf.cwl#main") in Hroot.
  by injection Hroot. }
destruct (Hb "file:///wf.cwl#main/s1" (or_introl Hin)) as [Hfill (p & Hp & Hl)].
split; [exact Hfill|].
change (urllib.urlparse "file:///wf.cwl#main/s1")
  with (@inr exn _ (urllib.mkSplitResult "file" "" "/wf.cwl" "" "main/s1")) in Hp.
injection Hp as <-. exact Hl.
Defined.

(** ** A row on which [urlparse] raises *)

Lemma split_rest_error sch url e : urllib.split_rest sch url = inl e → e = ValueError.
Proof.
unfold urllib.split_rest.
destruct (if urllib.starts_with_slashes url then urllib._splitnetloc2 url
          else (EmptyString, url)) as [netloc rest].
destruct (_ || _); [by intros [= <-]|].
destruct (urllib.split_once "#" rest) as [[u f]|];
  [destruct (urllib.split_once "?" u) as [[? ?]|]
  |destruct (urllib.split_once "?" rest) as [[? ?]|]]; done.
Qed.

Lemma urlparse_error url e : urllib.urlparse url = inl e → e = ValueError.
Proof.
unfold urllib.urlparse, urllib.urlsplit.
destruct (urllib.split_once ":" url) as [[[|c pre] rest]|];
  try apply split_rest_error.
destruct (String.eqb _ _); [apply split_rest_error|].
destruct (urllib.forallb _ _); [|apply split_rest_error].
destruct (_ || _); apply split_rest_error.
Qed.

Lemma urlparse_fragment_raises uri self :
¬ parses uri → urlparse_fragment uri self = (inl ValueError, self).
Proof.
intros Hp. unfold urlparse_fragment, mbind, M_bind, lift.
destruct (urllib.urlparse uri) as [e|p] eqn:E.
- by rewrite (urlparse_error uri e E).
- destruct Hp. by exists p.
Qed.

Lemma for_app {A} (body : A → M unit) xs ys self :
for_ (xs ++ ys) body self
= match for_ xs body self with
  | (inr _, self1) => for_ ys body self1
  | (inl e, self1) => (inl e, self1)
  end.
Proof.
revert self. induction xs as [|x xs IH]; intros self; [done|].
cbn [app for_]. unfold mbind, M_bind.
destruct (body x self) as [[e|[]] self1]; [done | apply IH].
Qed.

(** A loop over rows of which the first [pre] are accepted and the next one
    raises before it changes anything. *)
Lemma for_stops {A} (P : A → Prop) (body : A → M unit) (δ : A → delta)
  pre r post self :
(∀ x s, pgv.strict (_dot_graph s) = false →
   match body x s with
   | (inr _, s') =>
       P x ∧ s' = with_dot_graph (apply_delta (δ x) (_dot_graph s)) s
   | (inl _, _) => ¬ P x
   end) →
(∀ s, body r s = (inl ValueError, s)) →
pgv.strict (_dot_graph self) = false →
Forall P pre →
for_ (pre ++ r :: post) body self
= (inl ValueError,
   with_dot_graph (apply_delta (dconcat (δ <$> pre)) (_dot_graph self)) self).
Proof.
intros Hbody Hr Hs Hpre. rewrite for_app.
pose proof (for_delta P body δ Hbody pre self Hs) as Hfor.
destruct (for_ pre body self) as [[e|[]] self1]; [done|].
destruct Hfor as [_ ->]. cbn [for_]. unfold mbind, M_bind. by rewrite Hr.
Qed.

(** X13. When [urlparse] raises on the input URI of a row, the input
    extractor raises [ValueError] at that row: the rows before it are in
    the graph, exactly as if the query had returned only them, and the row
    itself and the rows after it have added nothing. The same holds of the
    output extractor. *)
Theorem X13_extractor_stops_at_bad_row (self : CWLViewer)
  (rdf rdf' : RdfGraph) (root : string) :
_rdf_graph self = Some rdf →
_root_graph_uri self = Some root →
pgv.strict (_dot_graph self) = false →
(∀ pre r post,
   input_edge_rows rdf root = pre ++ r :: post →
   input_edge_rows rdf' root = pre →
   input_rows_ok pre → ¬ parses (InputRow.input r) →
   ∃ done_,
     _set_input_edges
       (mkCWLViewer (_filename self) (_dot_graph self) (Some rdf') (Some root)
                    (calls self))
     = (inr tt, done_)
     ∧ _set_input_edges self = (inl ValueError, (_set_input_edges self).2)
     ∧ _dot_graph (_set_input_edges self).2 = _dot_graph done_)
∧ (∀ pre r post,
     output_edge_rows rdf root = pre ++ r :: post →
     output_edge_rows rdf' root = pre →
     output_rows_ok pre → ¬ parses (OutputRow.output r) →
     ∃ done_,
       _set_output_edges
         (mkCWLViewer (_filename self) (_dot_graph self) (Some rdf') (Some root)
                      (calls self))
       = (inr tt, done_)
       ∧ _set_output_edges self = (inl ValueError, (_set_output_edges self).2)
       ∧ _dot_graph (_set_output_edges self).2 = _dot_graph done_).
Proof.
intros Hrdf Hroot Hs. split; intros pre r post Hrows Hrows' Hpre Hbad.
- set (self' := mkCWLViewer _ _ (Some rdf') _ _).
  pose proof (_set_input_edges_spec self' rdf' root eq_refl eq_refl Hs) as Hok.
  rewrite Hrows' in Hok.
  destruct (_set_input_edges self') as [[e|[]] done_]; [done|].
  destruct Hok as [_ ->]. eexists. split; [done|].
  assert (_set_input_edges self
          = (inl ValueError,
             with_dot_graph
               (apply_delta (input_delta pre) (_dot_graph self))
               (with_call (rdflib_query get_input_edges (Some root)) self)))
    as Hrun.
  { unfold _set_input_edges. unfold_monad.
    cbn -[for_ pgv.add_subgraph pgv.subgraph_set_graph_attr].
    rewrite Hrdf. cbn -[for_ pgv.add_subgraph pgv.subgraph_set_graph_attr].
    rewrite Hroot. cbn -[for_ pgv.add_subgraph pgv.subgraph_set_graph_attr].
    rewrite Hrows.
    rewrite add_subgraph_delta, !subgraph_set_graph_attr_delta. cbn [app].
    rewrite (for_stops _ input_edge_body input_row_delta pre r post _
               input_edge_body_spec); [|intros s|done|done].
    - unfold input_delta, with_dot_graph, with_call.
      cbn [_dot_graph _filename _rdf_graph _root_graph_uri calls].
      by rewrite apply_delta_dapp, Hrdf, Hroot.
    - unfold input_edge_body, mbind, M_bind.
      by rewrite urlparse_fragment_raises. }
  rewrite Hrun. split; done.
- set (self' := mkCWLViewer _ _ (Some rdf') _ _).
  pose proof (_set_output_edges_spec self' rdf' root eq_refl eq_refl Hs) as Hok.
  rewrite Hrows' in Hok.
  destruct (_set_output_edges self') as [[e|[]] done_]; [done|].
  destruct Hok as [_ ->]. eexists. split; [done|].
  assert (_set_output_edges self
          = (inl ValueError,
             with_dot_graph
               (apply_delta (output_delta pre) (_dot_graph self))
               (with_call (rdflib_query get_output_edges (Some root)) self)))
    as Hrun.
  { unfold _set_output_edges. unfold_monad.
    cbn -[for_ pgv.add_subgraph pgv.subgraph_set_graph_attr].
    rewrite Hrdf. cbn -[for_ pgv.add_subgraph pgv.subgraph_set_graph_attr].
    rewrite Hroot. cbn -[for_ pgv.add_subgraph pgv.subgraph_set_graph_attr].
    rewrite Hrows.
    rewrite add_subgraph_delta, !subgraph_set_graph_attr_delta. cbn [app].
    rewrite (for_stops _ output_edge_body output_row_delta pre r post _
               output_edge_body_spec); [|intros s|done|done].
    - unfold output_delta, with_dot_graph, with_call.
      cbn [_dot_graph _filename _rdf_graph _root_graph_uri calls].
      by rewrite apply_delta_dapp, Hrdf, Hroot.
    - unfold output_edge_body, mbind, M_bind.
      by rewrite urlparse_fragment_raises. }
  rewrite Hrun. split; done.
Qed.

Lemma X13_extractor_stops_at_bad_row_witness :
let self := mkCWLViewer "wf.cwl" _init_dot_graph (Some bad_row_rdf)
              (Some "file:///wf.cwl#main") [] in
(_set_input_edges self = (inl ValueError, (_set_input_edges self).2)
 ∧ pgv.edges (_dot_graph (_set_input_edges self).2)
   = [("file:///wf.cwl#main/i", "file:///wf.cwl#main/s")])
∧ (_set_output_edges self = (inl ValueError, (_set_output_edges self).2)
   ∧ pgv.edges (_dot_graph (_set_output_edges self).2)
     = [("file:///wf.cwl#main/s", "file:///wf.cwl#main/o")]).
Proof.
assert (parses "file:///wf.cwl#main/i") as Hi by (eexists; vm_compute; reflexivity).
assert (parses "file:///wf.cwl#main/o") as Ho by (eexists; vm_compute; reflexivity).
assert (¬ parses "http://[::1/wf#j") as Hj
  by (intros [p Hp]; vm_compute in Hp; discriminate Hp).
assert (¬ parses "http://[::1/wf#p") as Hp
  by (intros [p Hp]; vm_compute in Hp; discriminate Hp).
assert (input_rows_ok
          [InputRow.mk "file:///wf.cwl#main/i" "file:///wf.cwl#main/s"]) as Hoki
  by (constructor; [exact Hi | constructor]).
assert (output_rows_ok
          [OutputRow.mk "file:///wf.cwl#main/o" "file:///wf.cwl#main/s"]) as Hoko
  by (constructor; [exact Ho | constructor]).
intros self.
destruct (X13_extractor_stops_at_bad_row self bad_row_rdf good_prefix_rdf
            "file:///wf.cwl#main" eq_refl eq_refl eq_refl) as [Hin Hout].
split.
- destruct (Hin [InputRow.mk "file:///wf.cwl#main/i" "file:///wf.cwl#main/s"]
              (InputRow.mk "http://[::1/wf#j" "file:///wf.cwl#main/s")
              [InputRow.mk "file:///wf.cwl#main/k" "file:///wf.cwl#main/s"]
              eq_refl eq_refl Hoki Hj)
    as (d & Hd & Hrun & Hg).
  split; [exact Hrun|]. rewrite Hg.
  replace d with (d, d).2 by done. rewrite <- (f_equal snd Hd) at 1.
  vm_compute. reflexivity.
- destruct (Hout [OutputRow.mk "file:///wf.cwl#main/o" "file:///wf.cwl#main/s"]
              (OutputRow.mk "http://[::1/wf#p" "file:///wf.cwl#main/s")
              []
              eq_refl eq_refl Hoko Hp)
    as (d & Hd & Hrun & Hg).
  split; [exact Hrun|]. rewrite Hg.
  replace d with (d, d).2 by done. rewrite <- (f_equal snd Hd) at 1.
  vm_compute. reflexivity.
Defined.
